(** * sensepy: the sensing loop of [sensepy/sense.py]

    A shallow embedding of the two classes of [sensepy/sense.py],
    [SensingAlgorithm] (the generic loop) and [EpsilonGreedySense] (the
    concrete policy), together with the few operations of Python, numpy and
    torch that the two classes rely on, and the properties of the loop
    proved over that embedding.

    Conventions.
    - A Python float is a rational ([float := Q]); infinities and NaN are
      not represented and rounding is not modelled: the two arithmetic
      operations the code applies to floats (addition of costs, division of
      a mean by a cost) are parameters of the development.  Comparison of
      finite floats is exact, so [p > epsilon] is comparison in [Q].
      [torch.Tensor(scores)] stores the scores in single precision before
      [.double()] widens them again; that narrowing of the low-order bits
      is not modelled either: where a property below ranks candidates, it
      ranks them by the score vector the scoring returns.
    - The schedule, the cost function and the estimator's mean over a
      region are functions: they return and change nothing.
    - A Python method is a function in a state-and-exception monad: it
      takes the state of the policy object (and of its collaborators) and
      yields either a value or a raised exception, together with the state
      it leaves behind.  Mutations performed before an exception is raised
      persist, as they do in Python.
    - The process, the estimator, the regions and the random generators
      live outside this repository; they are interfaces (type classes)
      here.  The estimator is handed the dataset at construction time and
      receives every new record through its own entry point; its state is
      kept apart from the list the policy owns. *)

From Stdlib Require Import String.
From Stdlib Require Import List ZArith QArith Lia Bool Permutation.
From Stdlib Require Finite.
From Stdlib Require Import Sorted.
Import ListNotations.

Set Implicit Arguments.

Definition float := Q.

(** ** Exceptions and results *)

Inductive exn : Type :=
| TypeError
| AttributeError
| IndexError
| RuntimeError
| External (name : string).   (* raised by a collaborator *)

Inductive result (A : Type) : Type :=
| Ok (a : A)
| Raise (e : exn).

Arguments Ok {A} a.
Arguments Raise {A} e.

Definition is_ok {A} (r : result A) : bool :=
  match r with Ok _ => true | Raise _ => false end.

Definition rbind {A B} (r : result A) (f : A -> result B) : result B :=
  match r with
  | Ok a => f a
  | Raise e => Raise e
  end.

Fixpoint rmap {A B} (f : A -> result B) (l : list A) : result (list B) :=
  match l with
  | [] => Ok []
  | x :: l' =>
      rbind (f x) (fun y => rbind (rmap f l') (fun ys => Ok (y :: ys)))
  end.

(** ** Python and torch primitives used by the loop *)

Module Py.

(** [l[i]] for a Python list and an integer: negative indices count from
    the end, anything outside [-len, len) raises [IndexError]. *)
Definition list_getitem {A} (l : list A) (i : Z) : result A :=
  let n := Z.of_nat (length l) in
  let j := if (i <? 0)%Z then (i + n)%Z else i in
  if ((0 <=? j) && (j <? n))%Z
  then match nth_error l (Z.to_nat j) with
       | Some a => Ok a
       | None => Raise IndexError
       end
  else Raise IndexError.

(** Tensors of rank 0, 1 and 2, as nested lists. *)
Inductive tensor (A : Type) : Type :=
| Scalar (x : A)
| Vector (xs : list A)
| Matrix (rows : list (list A)).

Arguments Scalar {A} x.
Arguments Vector {A} xs.
Arguments Matrix {A} rows.

Definition elements {A} (t : tensor A) : list A :=
  match t with
  | Scalar x => [x]
  | Vector xs => xs
  | Matrix rows => concat rows
  end.

(** [Tensor.__index__]: only an integer tensor holding a single element
    converts to an index. *)
Definition tensor_index (t : tensor Z) : result Z :=
  match elements t with
  | [i] => Ok i
  | _ => Raise TypeError
  end.

(** [actions[i]] where [i] is a tensor. *)
Definition list_getitem_tensor {A} (l : list A) (i : tensor Z) : result A :=
  rbind (tensor_index i) (list_getitem l).

(** Iteration over a tensor runs over its first axis; a rank-0 tensor is
    not iterable. *)
Definition tensor_iter {A} (t : tensor A) : result (list (tensor A)) :=
  match t with
  | Scalar _ => Raise TypeError
  | Vector xs => Ok (map Scalar xs)
  | Matrix rows => Ok (map Vector rows)
  end.

(** The score tensors the two scoring methods build:
    [torch.Tensor(scores).double()] has shape [(m,)],
    [torch.randn(size=(m, 1)).double()] has shape [(m, 1)]. *)
Inductive score_tensor : Type :=
| Flat (xs : list float)
| Column (xs : list float).

(** Descending insertion sort of (score, position) entries; among equal
    scores the smaller position comes first.  The order among equal scores
    is a choice made here, torch fixes none, and no property below depends
    on it. *)
Fixpoint insert_desc (e : float * nat) (l : list (float * nat))
  : list (float * nat) :=
  match l with
  | [] => [e]
  | h :: l' =>
      if Qle_bool (fst h) (fst e) then e :: l
      else h :: insert_desc e l'
  end.

Definition sort_desc (l : list (float * nat)) : list (float * nat) :=
  fold_right insert_desc [] l.

Definition enumerate (xs : list float) : list (float * nat) :=
  combine xs (seq 0 (length xs)).

(** The [k] largest entries of a row, largest first, with their
    positions in the row. *)
Definition topk_row (xs : list float) (k : nat) : list (float * nat) :=
  firstn k (sort_desc (enumerate xs)).

Definition row_values (sel : list (float * nat)) : list float :=
  map fst sel.

Definition row_indices (sel : list (float * nat)) : list Z :=
  map (fun e => Z.of_nat (snd e)) sel.

(** [torch.topk(input, k)]: selection along the LAST axis, values and
    indices shaped like the input with the last axis cut to [k]; raises
    when [k] is negative or exceeds the size of that axis. *)
Definition torch_topk (input : score_tensor) (k : Z)
  : result (tensor float * tensor Z) :=
  match input with
  | Flat xs =>
      if ((0 <=? k) && (k <=? Z.of_nat (length xs)))%Z
      then let sel := topk_row xs (Z.to_nat k) in
           Ok (Vector (row_values sel), Vector (row_indices sel))
      else Raise RuntimeError
  | Column xs =>
      if ((0 <=? k) && (k <=? 1))%Z
      then let sel := map (fun x => topk_row [x] (Z.to_nat k)) xs in
           Ok (Matrix (map row_values sel), Matrix (map row_indices sel))
      else Raise RuntimeError
  end.

Arguments torch_topk : simpl never.

(** [torch.argmax(t)] over the flattened tensor: position of the first
    maximal entry; an empty tensor raises. *)
Fixpoint argmax_from (best : float) (besti : nat) (i : nat) (xs : list float)
  : nat :=
  match xs with
  | [] => besti
  | x :: xs' =>
      if Qle_bool x best then argmax_from best besti (S i) xs'
      else argmax_from x i (S i) xs'
  end.

Definition torch_argmax (xs : list float) : result nat :=
  match xs with
  | [] => Raise IndexError
  | x :: xs' => Ok (argmax_from x 0%nat 1%nat xs')
  end.

End Py.

Import Py.

(** ** Data model *)

(** An observation record [(region, points or None, duration)]; the points
    of a record form a tensor with one row per event. *)
Definition record (region point : Type) : Type :=
  (region * option (list point) * float)%type.

Definition rec_region {region point} (r : record region point) : region :=
  fst (fst r).
Definition rec_points {region point} (r : record region point)
  : option (list point) := snd (fst r).
Definition rec_dt {region point} (r : record region point) : float := snd r.

(** ** Collaborators (outside this repository) *)

(** [process.sample(action, dt=...)]: the observed points or [None]. *)
Class Process (region point P : Type) : Type := {
  sample : region -> float -> P -> result (option (list point)) * P
}.

(** The rate estimator: bulk load, incremental ingestion, fit, the [rate]
    attribute (is it other than [None]?), the mean over a region and the
    mean on an [n]-point grid of a region. *)
Class Estimator (region point E : Type) : Type := {
  load_data : option (list (record region point)) -> E -> result unit * E;
  add_data_point : record region point -> E -> result unit * E;
  fit_gp : E -> result unit * E;
  has_rate : E -> bool;
  mean_set : E -> region -> float;
  mean_rate : E -> region -> Z -> result (list float)
}.

(** [D.return_discretization(n)]: a grid of coordinates, one row each. *)
Class Region (region : Type) : Type := {
  return_discretization : region -> Z -> list (list float)
}.

(** The random generators: [np.random.uniform(0, 1)] and one standard
    normal draw ([np.random.randn()], an entry of [torch.randn]). *)
Class Generator (G : Type) : Type := {
  uniform : G -> float * G;
  randn : G -> float * G
}.

(** Float arithmetic used by the loop: [cost += w(...)] and [map / w(...)]. *)
Class FloatOps : Type := {
  fadd : float -> float -> float;
  fdiv : float -> float -> float
}.

(** ** The policy object *)

Record policy (region point E P G : Type) : Type := mkPolicy {
  process : P;
  estimator : E;
  w : region -> float;
  dt : float;
  topk : Z;
  data : option (list (record region point));
  epsilon : Z -> float;
  t : Z;
  gen : G
}.

Section Setters.
Context {region point E P G : Type}.
Local Abbreviation policy := (policy region point E P G).

Definition set_process (p : P) (s : policy) : policy :=
  mkPolicy p (estimator s) (w s) (dt s) (topk s) (data s) (epsilon s) (t s)
           (gen s).
Definition set_estimator (e : E) (s : policy) : policy :=
  mkPolicy (process s) e (w s) (dt s) (topk s) (data s) (epsilon s) (t s)
           (gen s).
Definition set_data (d : option (list (record region point))) (s : policy)
  : policy :=
  mkPolicy (process s) (estimator s) (w s) (dt s) (topk s) d (epsilon s)
           (t s) (gen s).
Definition set_t (n : Z) (s : policy) : policy :=
  mkPolicy (process s) (estimator s) (w s) (dt s) (topk s) (data s)
           (epsilon s) n (gen s).
Definition set_gen (g : G) (s : policy) : policy :=
  mkPolicy (process s) (estimator s) (w s) (dt s) (topk s) (data s)
           (epsilon s) (t s) g.
End Setters.

(** ** The monad of methods *)

Definition M (S A : Type) : Type := S -> result A * S.

Definition ret {S A} (a : A) : M S A := fun s => (Ok a, s).

Definition raise {S A} (e : exn) : M S A := fun s => (Raise e, s).

Definition bind {S A B} (m : M S A) (f : A -> M S B) : M S B :=
  fun s =>
    match m s with
    | (Ok a, s') => f a s'
    | (Raise e, s') => (Raise e, s')
    end.

Definition lift {S A} (r : result A) : M S A := fun s => (r, s).

Definition gets {S A} (f : S -> A) : M S A := fun s => (Ok (f s), s).

Definition modify {S} (f : S -> S) : M S unit := fun s => (Ok tt, f s).

Declare Scope method_scope.
Delimit Scope method_scope with method.
Notation "x <- m ;; k" := (bind m (fun x => k))
  (at level 61, m at next level, right associativity) : method_scope.
Notation "m ;;; k" := (bind m (fun _ => k))
  (at level 61, right associativity) : method_scope.

(** Method tables: [step] calls [self.fit_estimator], [self.acquisition_function]
    and [self.add_data], which a subclass overrides. *)
Record methods (S region point : Type) : Type := mkMethods {
  m_fit_estimator : M S unit;
  m_acquisition_function : list region -> M S score_tensor;
  m_add_data : record region point -> M S unit
}.

(** What [step] reports about the observations of a round: a number of
    events, or the raw point buffer (possibly [None]). *)
Inductive observed (point : Type) : Type :=
| Count (n : Z)
| Points (p : option (list point)).

Arguments Count {point} n.
Arguments Points {point} p.

Local Open Scope method_scope.

(** Calls into the collaborators held by the policy object. *)
Section Calls.
Context {region point E P G : Type}.
Local Abbreviation policy := (policy region point E P G).

Definition call_process {A} (f : P -> result A * P) : M policy A :=
  fun s => let (r, p') := f (process s) in (r, set_process p' s).

Definition call_estimator {A} (f : E -> result A * E) : M policy A :=
  fun s => let (r, e') := f (estimator s) in (r, set_estimator e' s).

Definition call_gen {A} (f : G -> A * G) : M policy A :=
  fun s => let (a, g') := f (gen s) in (Ok a, set_gen g' s).
End Calls.

(** ** class SensingAlgorithm *)

Module SensingAlgorithm.
Section SensingAlgorithm.
Context {region point E P G : Type}.
Context `{Process region point P} `{Estimator region point E}.
Context `{Region region} `{Generator G} `{FloatOps}.
Local Abbreviation policy := (policy region point E P G).
Local Abbreviation record := (record region point).

(** [sense]: sample the process on the action for the default duration. *)
Definition sense (action : region) : M policy record :=
  dt_ <- gets (@dt region point E P G) ;;
  obs <- call_process (sample action dt_) ;;
  dt' <- gets (@dt region point E P G) ;;
  ret (action, obs, dt').

(** One standard normal draw per action. *)
Fixpoint random_scores (actions : list region) : M policy (list float) :=
  match actions with
  | [] => ret []
  | _ :: rest =>
      x <- call_gen randn ;;
      xs <- random_scores rest ;;
      ret (x :: xs)
  end.

(** [acquisition_function] of the base class:
    [torch.randn(size=(len(actions), 1)).double()]. *)
Definition acquisition_function (actions : list region)
  : M policy score_tensor :=
  xs <- random_scores actions ;;
  ret (Column xs).

(** [fit_estimator] of the base class: [pass]. *)
Definition fit_estimator : M policy unit := ret tt.

(** [count_events]: the loop over [self.data] with its accumulator. *)
Definition count_one (total : Z) (i : record) : Z :=
  match rec_points i with
  | Some pts => (total + Z.of_nat (length pts))%Z
  | None => total
  end.

Definition count_events : M policy Z :=
  d <- gets (@data region point E P G) ;;
  match d with
  | None => raise TypeError          (* iteration over None *)
  | Some records => ret (fold_left count_one records 0%Z)
  end.

(** The body of [for action in sensed_actions] in [step], with the two
    round-local accumulators [cost] and [points_loc]. *)
Definition merge_points (points_loc obs : option (list point))
  : option (list point) :=
  match points_loc, obs with
  | None, Some pts => Some pts
  | Some buf, Some pts => Some (buf ++ pts)
  | _, None => points_loc
  end.

Fixpoint sense_loop (self : methods policy region point)
    (sensed_actions : list region) (cost : float)
    (points_loc : option (list point))
  : M policy (float * option (list point)) :=
  match sensed_actions with
  | [] => ret (cost, points_loc)
  | action :: rest =>
      data_point <- sense action ;;
      m_add_data self data_point ;;;
      w_ <- gets (@w region point E P G) ;;
      sense_loop self rest (fadd cost (w_ (rec_region data_point)))
                 (merge_points points_loc (rec_points data_point))
  end.

(** The selection of [step]: [actions[best_indices]] wrapped in a list when
    [topk == 1], the comprehension over [best_indices] otherwise. *)
Definition pick_actions (actions : list region) (k : Z) (best_indices : tensor Z)
  : result (list region) :=
  if (k =? 1)%Z
  then rbind (list_getitem_tensor actions best_indices) (fun a => Ok [a])
  else rbind (tensor_iter best_indices) (rmap (list_getitem_tensor actions)).

Definition summary (points : bool) (points_loc : option (list point))
  : observed point :=
  if negb points
  then match points_loc with
       | Some buf => Count (Z.of_nat (length buf))
       | None => Count 0
       end
  else match points_loc with
       | Some buf => Points (Some buf)
       | None => Points None
       end.

(** [step], in its three stages: the selection (fit, score, top-k, pick,
    verbose report), the sensing loop, the summary. *)
Definition select (self : methods policy region point)
    (actions : list region) (verbose : bool)
  : M policy (list region * tensor Z) :=
  m_fit_estimator self ;;;
  scores <- m_acquisition_function self actions ;;
  k <- gets (@topk region point E P G) ;;
  sel <- lift (torch_topk scores k) ;;
  let best_indices := snd sel in
  k' <- gets (@topk region point E P G) ;;
  sensed_actions <- lift (pick_actions actions k' best_indices) ;;
  (if verbose then count_events ;;; ret tt else ret tt) ;;;
  ret (sensed_actions, best_indices).

Definition step (self : methods policy region point) (actions : list region)
    (verbose index points : bool)
  : M policy (float * observed point * list region * tensor Z) :=
  chosen <- select self actions verbose ;;
  let (sensed_actions, best_indices) := chosen in
  res <- sense_loop self sensed_actions 0%Q None ;;
  let (cost, points_loc) := res in
  ret (cost, summary points points_loc, sensed_actions, best_indices).

(** [best_point_so_far]. *)
Definition best_point_so_far (D : region) (n : Z)
  : M policy (list (list float)) :=
  let xx := return_discretization D n in
  e <- gets (@estimator region point E P G) ;;
  map_ <- lift (mean_rate e D n) ;;
  i <- lift (torch_argmax map_) ;;
  match nth_error xx i with
  | Some row => ret [row]
  | None => raise IndexError
  end.

(** The method table of the base class itself: it defines no [add_data]. *)
Definition base_methods : methods policy region point :=
  mkMethods fit_estimator acquisition_function
            (fun _ => raise AttributeError).

End SensingAlgorithm.
End SensingAlgorithm.

(** ** class EpsilonGreedySense(SensingAlgorithm) *)

Module EpsilonGreedySense.
Section EpsilonGreedySense.
Context {region point E P G : Type}.
Context `{Process region point P} `{Estimator region point E}.
Context `{Region region} `{Generator G} `{FloatOps}.
Local Abbreviation policy := (policy region point E P G).
Local Abbreviation record := (record region point).

(** [__init__]: the fields are set, the dataset is handed to the estimator,
    the round counter starts at 0.  The constructor raises when the bulk
    load does. *)
Definition init (process_ : P) (estimator_ : E) (w_ : region -> float)
    (initial_data : option (list record)) (epsilon_ : Z -> float)
    (dt_ : float) (topk_ : Z) (g : G) : result policy :=
  match load_data initial_data estimator_ with
  | (Ok _, estimator') =>
      Ok (mkPolicy process_ estimator' w_ dt_ topk_ initial_data epsilon_
                   0%Z g)
  | (Raise e, _) => Raise e
  end.

(** [fit_estimator]: [self.estimator.fit_gp()]. *)
Definition fit_estimator : M policy unit := call_estimator fit_gp.

(** The exploitation scores: [float(map / self.w(action))] per action. *)
Definition exploit_scores (e : E) (w_ : region -> float)
    (actions : list region) : list float :=
  map (fun action => fdiv (mean_set e action) (w_ action)) actions.

(** [acquisition_function]. *)
Definition acquisition_function (actions : list region)
  : M policy score_tensor :=
  modify (fun s => set_t (t s + 1)%Z s) ;;;
  p <- call_gen uniform ;;
  t_ <- gets (@t region point E P G) ;;
  eps <- gets (@epsilon region point E P G) ;;
  let epsilon_ := eps t_ in
  scores <-
    (if negb (Qle_bool p epsilon_)            (* p > epsilon *)
     then
       e <- gets (@estimator region point E P G) ;;
       if has_rate e
       then w_ <- gets (@w region point E P G) ;;
            ret (exploit_scores e w_ actions)
       else SensingAlgorithm.random_scores actions
     else SensingAlgorithm.random_scores actions) ;;
  ret (Flat scores).

(** [add_data]: the estimator first, the local list second. *)
Definition add_data (data_point : record) : M policy unit :=
  call_estimator (add_data_point data_point) ;;;
  d <- gets (@data region point E P G) ;;
  match d with
  | None => raise AttributeError      (* None has no append *)
  | Some records => modify (set_data (Some (records ++ [data_point])))
  end.

Definition eg_methods : methods policy region point :=
  mkMethods fit_estimator acquisition_function add_data.

(** The inherited methods, dispatched on the subclass. *)
Definition step := SensingAlgorithm.step eg_methods.
Definition count_events : M policy Z := SensingAlgorithm.count_events.
Definition best_point_so_far (D : region) (n : Z)
  : M policy (list (list float)) := SensingAlgorithm.best_point_so_far D n.
Definition sense (action : region) : M policy record :=
  SensingAlgorithm.sense action.

End EpsilonGreedySense.
End EpsilonGreedySense.

(** ** A small concrete world

    Regions are numbers, points are integers.  The process plays back a
    script of outcomes; the estimator stores what it is given, refuses
    regions numbered 100 and above, fails to fit when it is flagged
    singular, holds a rate once fitted and answers grid queries with a
    flat baseline until then; the generator plays back a list of draws. *)

Module Toy.

Definition region := nat.
Definition point := Z.
Definition P := list (result (option (list point))).
Definition G := list float.

Record E : Type := mkE {
  seen : list (record region point);
  fitted : bool;
  singular : bool
}.

#[global] Instance toy_process : Process region point P := {|
  sample := fun _ _ p =>
    match p with
    | [] => (Ok (Some []), [])
    | r :: p' => (r, p')
    end
|}.

#[global] Instance toy_estimator : Estimator region point E := {|
  load_data := fun d e =>
    (Ok tt, mkE (match d with Some l => l | None => [] end) (fitted e)
                (singular e));
  add_data_point := fun r e =>
    if (rec_region r <? 100)%nat
    then (Ok tt, mkE (seen e ++ [r]) (fitted e) (singular e))
    else (Raise (External "InvalidActionError"), e);
  fit_gp := fun e =>
    if singular e
    then (Raise (External "EstimationError"), e)
    else (Ok tt, mkE (seen e) true false);
  has_rate := fitted;
  mean_set := fun e r => inject_Z (Z.of_nat (S r));
  mean_rate := fun e D n =>
    Ok (map (fun i => if fitted e then inject_Z (Z.of_nat (i mod 3)) else 1%Q)
            (seq 0 (Z.to_nat n)))
|}.

#[global] Instance toy_region : Region region := {|
  return_discretization := fun D n =>
    map (fun i => [inject_Z (Z.of_nat (D + i))]) (seq 0 (Z.to_nat n))
|}.

#[global] Instance toy_generator : Generator G := {|
  uniform := fun g => (hd 0%Q g, tl g);
  randn := fun g => (hd 0%Q g, tl g)
|}.

#[global] Instance toy_float : FloatOps := {|
  fadd := Qplus;
  fdiv := Qdiv
|}.

Definition policy : Type := policy region point E P G.

(** Cost of a region: twice its number plus one. *)
Definition cost (r : region) : float := inject_Z (Z.of_nat (2 * r + 1)).

Definition zero_schedule (_ : Z) : float := 0%Q.

Definition rec0 : record region point := (0%nat, Some [1%Z; 2%Z], 1%Q).

Definition loaded : E := mkE [rec0] false false.
Definition trained : E := mkE [rec0] true false.
Definition ill : E := mkE [rec0] false true.

(** A policy over the toy world: cost [cost], duration 1, schedule 0. *)
Definition make (e : E) (p : P) (d : option (list (record region point)))
    (k : Z) (g : G) : policy :=
  mkPolicy p e cost 1%Q k d zero_schedule 0%Z g.

(** A policy that keeps the scoring of the base class and takes the other
    two methods from the epsilon-greedy policy. *)
Definition base_scoring : methods policy region point :=
  mkMethods EpsilonGreedySense.fit_estimator
            SensingAlgorithm.acquisition_function
            EpsilonGreedySense.add_data.

(** A round of two regions whose second sensing is refused by the
    process, with the states it goes through. *)
Definition refused : policy :=
  make loaded [Ok (Some [4%Z]); Raise (External "InvalidActionError")]
       (Some [rec0]) 2%Z [0%Q; 1%Q; 2%Q].

(** A round of three regions of which only the second observes points. *)
Definition quiet : policy :=
  make loaded [Ok None; Ok (Some [4%Z; 5%Z]); Ok None] (Some [rec0]) 3%Z
       [0%Q; 1%Q; 2%Q; 3%Q].
Definition quiet_after : policy :=
  snd (EpsilonGreedySense.step [10%nat; 11%nat; 12%nat] false false true
         quiet).

(** A round that exploits: the fit gives a rate, the uniform draw is 1/2
    and three regions compete for one sensing. *)
Definition greedy : policy :=
  make loaded [] (Some [rec0]) 1%Z [(1 # 2)%Q].
Definition greedy_after : policy :=
  snd (EpsilonGreedySense.step [1%nat; 2%nat; 3%nat] false false false
         greedy).

(** The state in which the round [greedy] has scored its candidates. *)
Definition greedy_scored : policy :=
  snd (EpsilonGreedySense.acquisition_function [1%nat; 2%nat; 3%nat]
         (set_estimator trained greedy)).

(** A dataset with point counts 2, 0 (empty but present), null, 1. *)
Definition four_records : list (record region point) :=
  [ (0%nat, Some [1%Z; 2%Z], 1%Q); (1%nat, Some [], 1%Q);
    (2%nat, None, 1%Q); (3%nat, Some [7%Z], 1%Q) ].

End Toy.

(** ** Reference definitions

    The quantities the properties below are stated with: the number of
    events of a record, the total over a dataset, the buffer obtained from
    the observations of a round by dropping the null ones and concatenating
    the rest, a run of standard normal draws, and the state of an estimator
    after it has ingested a list of records. *)

Section Reference.
Context {region point : Type}.

Definition events_of (r : record region point) : Z :=
  match rec_points r with
  | Some pts => Z.of_nat (length pts)
  | None => 0%Z
  end.

Definition total_events (records : list (record region point)) : Z :=
  fold_right Z.add 0%Z (map events_of records).

Definition nonnull (obs : list (option (list point))) : list (list point) :=
  flat_map (fun o => match o with Some pts => [pts] | None => [] end) obs.

Definition merged (obs : list (option (list point))) : option (list point) :=
  match nonnull obs with
  | [] => None
  | bufs => Some (concat bufs)
  end.

Definition all_null (obs : list (option (list point))) : Prop :=
  Forall (fun o => o = None) obs.

End Reference.

(** Order of the entries of a sorted row: larger scores first. *)
Definition above (a b : float * nat) : Prop := fst b <= fst a.

Fixpoint draws {G : Type} `{Generator G} (n : nat) (g : G) : list float * G :=
  match n with
  | O => ([], g)
  | S n' =>
      let (x, g1) := randn g in
      let (xs, g2) := draws n' g1 in
      (x :: xs, g2)
  end.

Definition ingest {region point E : Type} `{Estimator region point E}
    (recs : list (record region point)) (e : E) : E :=
  fold_left (fun e' r => snd (add_data_point r e')) recs e.

(** The answers of the process to a run of samplings of one duration,
    region after region, up to the first that raises. *)
Fixpoint sample_run {region point P : Type} `{Process region point P}
    (regs : list region) (d : float) (p : P)
  : result (list (option (list point))) * P :=
  match regs with
  | [] => (Ok [], p)
  | a :: rest =>
      match sample a d p with
      | (Ok o, p1) =>
          match sample_run rest d p1 with
          | (Ok os, p2) => (Ok (o :: os), p2)
          | (Raise e, p2) => (Raise e, p2)
          end
      | (Raise e, p1) => (Raise e, p1)
      end
  end.

(** The records a round builds from the regions it senses, what the
    process answered and the duration. *)
Definition records_of {region point : Type} (regs : list region)
    (obs : list (option (list point))) (d : float)
  : list (record region point) :=
  map (fun ao => (fst ao, snd ao, d)) (combine regs obs).

(** The ingestion of a list of records by the estimator, record after
    record, up to the first that raises. *)
Fixpoint ingest_run {region point E : Type} `{Estimator region point E}
    (recs : list (record region point)) (e : E) : result unit * E :=
  match recs with
  | [] => (Ok tt, e)
  | r :: rest =>
      match add_data_point r e with
      | (Ok _, e1) => ingest_run rest e1
      | (Raise x, e1) => (Raise x, e1)
      end
  end.

(** Two states of a policy with the same configuration: cost function,
    duration, [topk] and schedule. *)
Definition same_config {region point E P G : Type}
    (s s' : policy region point E P G) : Prop :=
  w s' = w s /\ dt s' = dt s /\ topk s' = topk s /\ epsilon s' = epsilon s.

(** Unfolding of the monad operations. *)
Ltac run_method :=
  unfold bind, ret, raise, lift, gets, modify, call_gen, call_estimator,
    call_process in *; simpl in *.

(** * Properties *)

(** ** Top-k selection *)

Section TopK.

Lemma insert_desc_perm (e : float * nat) (l : list (float * nat)) :
  Permutation (insert_desc e l) (e :: l).
Proof.
  induction l as [|h l IH]; simpl.
  - apply Permutation_refl.
  - destruct (Qle_bool (fst h) (fst e)).
    + apply Permutation_refl.
    + eapply perm_trans; [apply perm_skip, IH | apply perm_swap].
Qed.

Lemma sort_desc_perm (l : list (float * nat)) : Permutation (sort_desc l) l.
Proof.
  induction l as [|h l IH]; simpl.
  - apply perm_nil.
  - eapply perm_trans; [apply insert_desc_perm | apply perm_skip, IH].
Qed.

Lemma combine_seq_snd (xs : list float) (a : nat) :
  map snd (combine xs (seq a (length xs))) = seq a (length xs).
Proof.
  revert a; induction xs as [|x xs IH]; intros a; simpl.
  - reflexivity.
  - now rewrite IH.
Qed.

Lemma combine_seq_nth (xs : list float) (a : nat) (v : float) (i : nat) :
  In (v, i) (combine xs (seq a (length xs))) ->
  (a <= i)%nat /\ nth_error xs (i - a) = Some v.
Proof.
  revert a; induction xs as [|x xs IH]; intros a; simpl.
  - intros [].
  - intros [Heq | Hin].
    + inversion Heq; subst. split; [lia|].
      now replace (i - i)%nat with 0%nat by lia.
    + apply IH in Hin. destruct Hin as [Hle Hnth]. split; [lia|].
      replace (i - a)%nat with (S (i - S a)) by lia. exact Hnth.
Qed.

Lemma sorted_indices_perm (xs : list float) :
  Permutation (map snd (sort_desc (enumerate xs))) (seq 0 (length xs)).
Proof.
  unfold enumerate.
  rewrite <- (combine_seq_snd xs 0) at 2.
  apply Permutation_map, sort_desc_perm.
Qed.

Lemma NoDup_firstn_of {A} (k : nat) (l : list A) :
  NoDup l -> NoDup (firstn k l).
Proof.
  revert k; induction l as [|x l IH]; intros k Hnd.
  - rewrite firstn_nil. constructor.
  - destruct k as [|k]; simpl; [constructor|].
    inversion Hnd; subst. constructor.
    + intros Hin. apply H1. revert Hin.
      rewrite <- (firstn_skipn k l) at 2. intros Hin.
      apply in_or_app; now left.
    + now apply IH.
Qed.

Lemma In_firstn_of {A} (k : nat) (l : list A) (x : A) :
  In x (firstn k l) -> In x l.
Proof.
  intros Hin. rewrite <- (firstn_skipn k l). apply in_or_app; now left.
Qed.

Lemma topk_row_length (xs : list float) (k : nat) :
  (k <= length xs)%nat -> length (topk_row xs k) = k.
Proof.
  intros Hk. unfold topk_row. apply firstn_length_le.
  rewrite (Permutation_length (sort_desc_perm _)).
  unfold enumerate. rewrite length_combine, length_seq. lia.
Qed.

Lemma topk_row_positions_NoDup (xs : list float) (k : nat) :
  NoDup (map snd (topk_row xs k)).
Proof.
  unfold topk_row. rewrite <- firstn_map. apply NoDup_firstn_of.
  eapply Permutation_NoDup.
  - apply Permutation_sym, sorted_indices_perm.
  - apply seq_NoDup.
Qed.

Lemma topk_row_positional (xs : list float) (k : nat) (e : float * nat) :
  In e (topk_row xs k) ->
  (snd e < length xs)%nat /\ nth_error xs (snd e) = Some (fst e).
Proof.
  intros Hin. apply In_firstn_of in Hin.
  apply (Permutation_in _ (sort_desc_perm _)) in Hin.
  destruct e as [v i]. apply combine_seq_nth in Hin. simpl.
  destruct Hin as [_ Hnth]. rewrite Nat.sub_0_r in Hnth.
  split; [|exact Hnth].
  apply nth_error_Some. now rewrite Hnth.
Qed.

Lemma insert_desc_sorted (e : float * nat) (l : list (float * nat)) :
  StronglySorted above l -> StronglySorted above (insert_desc e l).
Proof.
  induction 1 as [|h l Hl IH Hh]; simpl.
  - constructor; constructor.
  - destruct (Qle_bool (fst h) (fst e)) eqn:Hle.
    + apply Qle_bool_iff in Hle. constructor.
      * constructor; assumption.
      * constructor; [exact Hle|].
        eapply Forall_impl; [|exact Hh]. intros b Hb. unfold above in *.
        eapply Qle_trans; eauto.
    + assert (Hlt : fst e < fst h).
      { apply Qnot_le_lt. intros Hc. apply Qle_bool_iff in Hc. congruence. }
      constructor; [exact IH|].
      apply (Permutation_Forall (Permutation_sym (insert_desc_perm e l))).
      constructor; [|exact Hh]. unfold above. now apply Qlt_le_weak.
Qed.

Lemma sort_desc_sorted (l : list (float * nat)) :
  StronglySorted above (sort_desc l).
Proof.
  induction l as [|h l IH]; simpl.
  - constructor.
  - now apply insert_desc_sorted.
Qed.

Lemma sorted_prefix_above (l1 l2 : list (float * nat)) :
  StronglySorted above (l1 ++ l2) ->
  forall a b, In a l1 -> In b l2 -> above a b.
Proof.
  induction l1 as [|h l1 IH]; simpl; intros Hs a b Ha Hb.
  - destruct Ha.
  - apply StronglySorted_inv in Hs. destruct Hs as [Hs Hh].
    destruct Ha as [<- | Ha].
    + rewrite Forall_forall in Hh. apply Hh. apply in_or_app. now right.
    + now apply (IH Hs).
Qed.

(** The entries [topk_row] selects are at least as large as every entry
    it leaves out. *)
Lemma topk_row_dominates (xs : list float) (k : nat) (a b : float * nat) :
  In a (topk_row xs k) ->
  In b (enumerate xs) -> ~ In b (topk_row xs k) ->
  fst b <= fst a.
Proof.
  unfold topk_row. intros Ha Hb Hnb.
  pose proof (sort_desc_sorted (enumerate xs)) as Hs.
  rewrite <- (firstn_skipn k (sort_desc (enumerate xs))) in Hs.
  apply (sorted_prefix_above _ _ Hs a b Ha).
  apply (Permutation_in _ (Permutation_sym (sort_desc_perm _))) in Hb.
  rewrite <- (firstn_skipn k (sort_desc (enumerate xs))) in Hb.
  apply in_app_or in Hb. destruct Hb as [Hb | Hb]; [contradiction | exact Hb].
Qed.

End TopK.

(** ** Scoring *)

Section Scoring.
Context {region point E P G : Type}.
Context `{Process region point P} `{Estimator region point E}.
Context `{Region region} `{Generator G} `{FloatOps}.
Local Abbreviation policy := (policy region point E P G).

Lemma draws_length (n : nat) (g : G) : length (fst (draws n g)) = n.
Proof.
  revert g; induction n as [|n IH]; intros g; simpl.
  - reflexivity.
  - destruct (randn g) as [x g1]. specialize (IH g1).
    destruct (draws n g1) as [xs g2]. simpl in *. now rewrite IH.
Qed.

(** The random scoring loop makes one draw per action and touches nothing
    but the generator. *)
Lemma random_scores_draws (actions : list region) (s : policy) :
  SensingAlgorithm.random_scores actions s =
    (Ok (fst (draws (length actions) (gen s))),
     set_gen (snd (draws (length actions) (gen s))) s).
Proof.
  revert s; induction actions as [|a actions IH]; intros s.
  - destruct s; reflexivity.
  - simpl. run_method.
    destruct (randn (gen s)) as [x g1] eqn:Hx.
    rewrite IH. simpl.
    destruct (draws (length actions) g1) as [xs g2]. simpl.
    destruct s; reflexivity.
Qed.

End Scoring.

Section EpsilonGreedyScoring.
Context {region point E P G : Type}.
Context `{Process region point P} `{Estimator region point E}.
Context `{Region region} `{Generator G} `{FloatOps}.
Local Abbreviation policy := (policy region point E P G).

(** C2 (as amended).  Under a schedule that is 0 at every round, with a
    fitted rate, every uniform draw [p > 0] sends [acquisition_function]
    through the exploitation branch: the score of each candidate is the
    estimator's mean over the region divided by the cost of the region, in
    the order of the candidates, and no normal draw is consumed. *)
Theorem acquisition_exploits_on_positive_draw
    (actions : list region) (s : policy) :
  (forall n, epsilon s n == 0) ->
  has_rate (estimator s) = true ->
  0 < fst (uniform (gen s)) ->
  EpsilonGreedySense.acquisition_function actions s =
    (Ok (Flat (map (fun a => fdiv (mean_set (estimator s) a) (w s a)) actions)),
     set_gen (snd (uniform (gen s))) (set_t (t s + 1) s)).
Proof.
  intros Heps Hrate Hp.
  unfold EpsilonGreedySense.acquisition_function. run_method.
  destruct (uniform (gen s)) as [p g1] eqn:Hu. simpl in *.
  destruct (Qle_bool p (epsilon s (t s + 1)%Z)) eqn:Hle.
  - apply Qle_bool_iff in Hle. rewrite Heps in Hle.
    exfalso. exact (Qlt_not_le _ _ Hp Hle).
  - simpl. rewrite Hrate. reflexivity.
Qed.

(** C6.  Without a fitted rate, [acquisition_function] returns standard
    normal draws, one per candidate and in their order, whatever the
    uniform draw and the schedule are: the scores are the next draws of
    the generator and depend on neither the estimator nor the cost. *)
Theorem acquisition_random_without_rate
    (actions : list region) (s : policy) :
  has_rate (estimator s) = false ->
  let g1 := snd (uniform (gen s)) in
  EpsilonGreedySense.acquisition_function actions s =
    (Ok (Flat (fst (draws (length actions) g1))),
     set_gen (snd (draws (length actions) g1)) (set_t (t s + 1) s))
  /\ length (fst (draws (length actions) g1)) = length actions.
Proof.
  intros Hrate g1. split; [|apply draws_length].
  unfold EpsilonGreedySense.acquisition_function. run_method.
  subst g1. destruct (uniform (gen s)) as [p g1] eqn:Hu. simpl in *.
  destruct (Qle_bool p (epsilon s (t s + 1)%Z)); simpl.
  - rewrite random_scores_draws. simpl. destruct s; reflexivity.
  - rewrite Hrate. rewrite random_scores_draws. simpl.
    destruct s; reflexivity.
Qed.

End EpsilonGreedyScoring.

(** ** The dataset *)

Section Dataset.
Context {region point E P G : Type}.
Context `{Process region point P} `{Estimator region point E}.
Context `{Region region} `{Generator G} `{FloatOps}.
Local Abbreviation policy := (policy region point E P G).
Local Abbreviation record := (record region point).

Lemma count_loop_total (records : list record) (total : Z) :
  fold_left SensingAlgorithm.count_one records total
  = (total + total_events records)%Z.
Proof.
  revert total; induction records as [|r records IH]; intros total; simpl.
  - unfold total_events; simpl. lia.
  - rewrite IH. unfold total_events; simpl.
    unfold SensingAlgorithm.count_one, events_of.
    destruct (rec_points r); lia.
Qed.

(** C5.  On a dataset of records, [count_events] returns the sum over the
    records of their numbers of observed points, a record without
    observation (None) counting for 0 and a record with an empty
    observation counting for 0 as well; the call changes nothing. *)
Theorem count_events_is_total (s : policy) (records : list record) :
  data s = Some records ->
  SensingAlgorithm.count_events s = (Ok (total_events records), s)
  /\ (forall r : record, rec_points r = None -> events_of r = 0%Z)
  /\ (forall r : record, rec_points r = Some [] -> events_of r = 0%Z).
Proof.
  intros Hd. split; [|split].
  - unfold SensingAlgorithm.count_events. run_method. rewrite Hd.
    rewrite count_loop_total. reflexivity.
  - intros r Hr. unfold events_of. now rewrite Hr.
  - intros r Hr. unfold events_of. now rewrite Hr.
Qed.

(** [add_data], case by case on what the estimator does with the record. *)
Lemma add_data_run (r : record) (s : policy) :
  EpsilonGreedySense.add_data r s =
    let ingestion := add_data_point r (estimator s) in
    let s1 := set_estimator (snd ingestion) s in
    match fst ingestion with
    | Raise e => (Raise e, s1)
    | Ok _ =>
        match data s with
        | Some records => (Ok tt, set_data (Some (records ++ [r])) s1)
        | None => (Raise AttributeError, s1)
        end
    end.
Proof.
  unfold EpsilonGreedySense.add_data. run_method.
  destruct (add_data_point r (estimator s)) as [[u|e] est']; simpl.
  - destruct (data s); reflexivity.
  - reflexivity.
Qed.

(** C3.  [add_data] hands the record to the estimator first and appends it
    to the local dataset second: when the estimator's ingestion raises,
    the error is the one [add_data] raises and the local dataset is
    unchanged; when it returns, the record is appended at the end of the
    dataset (the dataset afterwards is the one before followed by the
    record) and the estimator is in the state its ingestion left; in every
    case the estimator has been reached, whatever happens to the
    append. *)
Theorem add_data_estimator_first (r : record) (s : policy) :
  (forall e est', add_data_point r (estimator s) = (Raise e, est') ->
     EpsilonGreedySense.add_data r s = (Raise e, set_estimator est' s)
     /\ data (snd (EpsilonGreedySense.add_data r s)) = data s
     /\ fst (EpsilonGreedySense.add_data r s) = Raise e
     /\ estimator (snd (EpsilonGreedySense.add_data r s)) = est')
  /\ (forall u est' records,
        add_data_point r (estimator s) = (Ok u, est') ->
        data s = Some records ->
        EpsilonGreedySense.add_data r s =
          (Ok tt, set_data (Some (records ++ [r])) (set_estimator est' s))
        /\ fst (EpsilonGreedySense.add_data r s) = Ok tt
        /\ data (snd (EpsilonGreedySense.add_data r s))
           = Some (records ++ [r])
        /\ estimator (snd (EpsilonGreedySense.add_data r s)) = est')
  /\ estimator (snd (EpsilonGreedySense.add_data r s))
     = snd (add_data_point r (estimator s)).
Proof.
  rewrite add_data_run. split; [|split].
  - intros e est' Hing. rewrite Hing. simpl. repeat split; reflexivity.
  - intros u est' records Hing Hd. rewrite Hing. simpl. rewrite Hd.
    simpl. repeat split; reflexivity.
  - destruct (add_data_point r (estimator s)) as [[u|e] est']; simpl.
    + destruct (data s); reflexivity.
    + reflexivity.
Qed.


Lemma sense_run (a : region) (s : policy) :
  SensingAlgorithm.sense a s =
    let sampling := sample a (dt s) (process s) in
    (match fst sampling with
     | Ok obs => Ok (a, obs, dt s)
     | Raise e => Raise e
     end, set_process (snd sampling) s).
Proof.
  unfold SensingAlgorithm.sense. run_method.
  destruct (sample a (dt s) (process s)) as [[obs|e] p']; reflexivity.
Qed.

End Dataset.

(** ** The sensing loop *)

Section Loop.
Context {region point E P G : Type}.
Context `{Process region point P} `{Estimator region point E}.
Context `{Region region} `{Generator G} `{FloatOps}.
Local Abbreviation policy := (policy region point E P G).
Local Abbreviation record := (record region point).
Local Abbreviation eg :=
  (EpsilonGreedySense.eg_methods : methods policy region point).

Lemma sense_loop_cons (a : region) (rest : list region) (c : float)
    (pl : option (list point)) (s : policy) :
  SensingAlgorithm.sense_loop eg (a :: rest) c pl s =
    match SensingAlgorithm.sense a s with
    | (Ok dp, s1) =>
        match EpsilonGreedySense.add_data dp s1 with
        | (Ok _, s2) =>
            SensingAlgorithm.sense_loop eg rest
              (fadd c (w s2 (rec_region dp)))
              (SensingAlgorithm.merge_points pl (rec_points dp)) s2
        | (Raise e, s2) => (Raise e, s2)
        end
    | (Raise e, s1) => (Raise e, s1)
    end.
Proof. reflexivity. Qed.


(** What the loop leaves alone, whatever its outcome. *)
Lemma sense_loop_frame (sensed : list region) :
  forall (c : float) (pl : option (list point)) (s : policy) r s',
  SensingAlgorithm.sense_loop eg sensed c pl s = (r, s') ->
  t s' = t s /\ topk s' = topk s /\ gen s' = gen s /\ w s' = w s
  /\ dt s' = dt s /\ (data s = None -> data s' = None).
Proof.
  induction sensed as [|a sensed IH]; intros c pl s r s' Hrun.
  - inversion Hrun; subst. repeat split; auto.
  - rewrite sense_loop_cons, sense_run in Hrun. simpl in Hrun.
    destruct (sample a (dt s) (process s)) as [[obs|e] p']; simpl in Hrun.
    + rewrite add_data_run in Hrun. simpl in Hrun.
      destruct (add_data_point (a, obs, dt s) (estimator s))
        as [[u|e] est']; simpl in Hrun.
      * destruct (data s) as [d|] eqn:Hd.
        -- apply IH in Hrun. simpl in Hrun.
           destruct Hrun as (Ht & Hk & Hg & Hw & Hdt & _).
           repeat split; auto. discriminate.
        -- inversion Hrun; subst; simpl. repeat split; auto.
      * inversion Hrun; subst; simpl. repeat split; auto.
    + inversion Hrun; subst; simpl. repeat split; auto.
Qed.

(** A completed loop: one record per chosen region, appended in selection
    order to the dataset and ingested in that order by the estimator; the
    point buffer is the fold of the merge over the observations and the
    cost the fold of the additions. *)
Lemma sense_loop_completed (sensed : list region) :
  forall (c : float) (pl : option (list point)) (s : policy) d c' pl' s',
  data s = Some d ->
  SensingAlgorithm.sense_loop eg sensed c pl s = (Ok (c', pl'), s') ->
  exists recs : list record,
    data s' = Some (d ++ recs)
    /\ map rec_region recs = sensed
    /\ pl' = fold_left SensingAlgorithm.merge_points (map rec_points recs) pl
    /\ c' = fold_left (fun acc r => fadd acc (w s (rec_region r))) recs c
    /\ estimator s' = ingest recs (estimator s).
Proof.
  induction sensed as [|a sensed IH]; intros c pl s d c' pl' s' Hd Hrun.
  - inversion Hrun; subst. exists []. rewrite app_nil_r.
    repeat split; auto.
  - rewrite sense_loop_cons, sense_run in Hrun. simpl in Hrun.
    destruct (sample a (dt s) (process s)) as [[obs|e] p']; simpl in Hrun;
      [|discriminate].
    rewrite add_data_run in Hrun. simpl in Hrun.
    destruct (add_data_point (a, obs, dt s) (estimator s))
      as [[u|e] est'] eqn:Hing; simpl in Hrun; [|discriminate].
    rewrite Hd in Hrun.
    eapply IH in Hrun; [|reflexivity].
    destruct Hrun as (recs & Hdata & Hreg & Hpl & Hc & Hest).
    exists ((a, obs, dt s) :: recs). simpl in *.
    rewrite <- app_assoc in Hdata. simpl in Hdata.
    repeat split; auto.
    + now rewrite Hreg.
    + unfold ingest in *. simpl. now rewrite Hing.
Qed.

Lemma merge_fold (obs : list (option (list point))) :
  forall pl : option (list point),
  fold_left SensingAlgorithm.merge_points obs pl =
    match pl with
    | None => merged obs
    | Some buf => Some (buf ++ concat (nonnull obs))
    end.
Proof.
  induction obs as [|o obs IH]; intros pl.
  - destruct pl; simpl; [now rewrite app_nil_r | reflexivity].
  - simpl. rewrite IH. destruct pl as [buf|], o as [pts|]; simpl.
    + now rewrite <- app_assoc.
    + reflexivity.
    + unfold merged. simpl. reflexivity.
    + unfold merged. simpl. reflexivity.
Qed.

Lemma nonnull_all_null (obs : list (option (list point))) :
  all_null obs -> nonnull obs = [].
Proof.
  induction 1 as [|o obs Ho _ IH]; simpl; [reflexivity|].
  subst o. exact IH.
Qed.

Lemma merged_all_null (obs : list (option (list point))) :
  all_null obs -> merged obs = None.
Proof.
  intros Hall. unfold merged. now rewrite nonnull_all_null.
Qed.

Lemma merged_single (pre post : list (option (list point)))
    (pts : list point) :
  all_null pre -> all_null post ->
  merged (pre ++ Some pts :: post) = Some pts.
Proof.
  intros Hpre Hpost. unfold merged, nonnull.
  rewrite flat_map_app. simpl.
  fold (nonnull pre). fold (nonnull post).
  rewrite (nonnull_all_null Hpre), (nonnull_all_null Hpost). simpl.
  now rewrite app_nil_r.
Qed.

End Loop.

(** ** The selection *)

Section Picking.
Context {A : Type}.

Lemma list_getitem_in_range (l : list A) (i : Z) :
  (0 <= i < Z.of_nat (length l))%Z ->
  exists a, list_getitem l i = Ok a /\ nth_error l (Z.to_nat i) = Some a.
Proof.
  intros [Hlo Hhi]. unfold list_getitem.
  destruct (i <? 0)%Z eqn:Hneg; [apply Z.ltb_lt in Hneg; lia|].
  replace ((0 <=? i)%Z && (i <? Z.of_nat (length l))%Z) with true.
  - destruct (nth_error l (Z.to_nat i)) as [a|] eqn:Hnth.
    + exists a. split; reflexivity.
    + apply nth_error_None in Hnth. lia.
  - symmetry. apply andb_true_iff. split.
    + now apply Z.leb_le.
    + now apply Z.ltb_lt.
Qed.

Lemma rmap_getitem_scalars (l : list A) (idx : list Z) :
  Forall (fun i => (0 <= i < Z.of_nat (length l))%Z) idx ->
  exists picked,
    rmap (list_getitem_tensor l) (map Scalar idx) = Ok picked
    /\ Forall2 (fun i a => nth_error l (Z.to_nat i) = Some a) idx picked.
Proof.
  induction 1 as [|i idx Hi _ IH].
  - exists []. split; [reflexivity | constructor].
  - destruct IH as (picked & Hmap & Hall).
    destruct (list_getitem_in_range l Hi) as (a & Hget & Hnth).
    exists (a :: picked). split.
    + simpl. unfold list_getitem_tensor at 1. simpl.
      rewrite Hget. simpl. rewrite Hmap. reflexivity.
    + now constructor.
Qed.

End Picking.

Section Selection.
Context {region point E P G : Type}.
Context `{Process region point P} `{Estimator region point E}.
Context `{Region region} `{Generator G} `{FloatOps}.
Local Abbreviation policy := (policy region point E P G).
Local Abbreviation record := (record region point).
Local Abbreviation eg :=
  (EpsilonGreedySense.eg_methods : methods policy region point).

(** The scoring of the epsilon-greedy policy always returns a flat vector
    with one score per candidate; it advances the round counter and the
    generator and nothing else. *)
Lemma acquisition_function_flat (actions : list region) (s : policy) :
  exists xs g',
    EpsilonGreedySense.acquisition_function actions s =
      (Ok (Flat xs), set_gen g' (set_t (t s + 1) s))
    /\ length xs = length actions.
Proof.
  unfold EpsilonGreedySense.acquisition_function. run_method.
  destruct (uniform (gen s)) as [p g1] eqn:Hu. simpl.
  destruct (Qle_bool p (epsilon s (t s + 1)%Z)); simpl.
  - rewrite random_scores_draws. simpl.
    eexists; eexists; split; [destruct s; reflexivity | apply draws_length].
  - destruct (has_rate (estimator s)).
    + eexists; exists g1; split; [reflexivity|].
      unfold EpsilonGreedySense.exploit_scores. apply length_map.
    + rewrite random_scores_draws. simpl.
      eexists; eexists; split; [destruct s; reflexivity | apply draws_length].
Qed.

(** The stages of the selection, one after the other. *)
Lemma select_run (actions : list region) (verbose : bool) (s : policy) :
  SensingAlgorithm.select eg actions verbose s =
    match fit_gp (estimator s) with
    | (Raise e, est') => (Raise e, set_estimator est' s)
    | (Ok _, est') =>
        match EpsilonGreedySense.acquisition_function actions
                (set_estimator est' s) with
        | (Raise e, s2) => (Raise e, s2)
        | (Ok scores, s2) =>
            match torch_topk scores (topk s2) with
            | Raise e => (Raise e, s2)
            | Ok sel =>
                match SensingAlgorithm.pick_actions actions (topk s2)
                        (snd sel) with
                | Raise e => (Raise e, s2)
                | Ok sensed =>
                    if verbose
                    then match data s2 with
                         | None => (Raise TypeError, s2)
                         | Some _ => (Ok (sensed, snd sel), s2)
                         end
                    else (Ok (sensed, snd sel), s2)
                end
            end
        end
    end.
Proof.
  unfold SensingAlgorithm.select. unfold bind at 1. simpl.
  unfold EpsilonGreedySense.fit_estimator, call_estimator.
  destruct (fit_gp (estimator s)) as [[u|e] est']; [|reflexivity].
  unfold bind at 1.
  destruct (EpsilonGreedySense.acquisition_function actions
              (set_estimator est' s)) as [[scores|e] s2]; [|reflexivity].
  run_method.
  destruct (torch_topk scores (topk s2)) as [sel|e]; [|reflexivity].
  destruct (SensingAlgorithm.pick_actions actions (topk s2) (snd sel))
    as [sensed|e]; [|reflexivity].
  destruct verbose; [|reflexivity].
  unfold SensingAlgorithm.count_events. run_method.
  destruct (data s2); reflexivity.
Qed.

Lemma row_indices_NoDup (xs : list float) (k : nat) :
  NoDup (row_indices (topk_row xs k)).
Proof.
  unfold row_indices. rewrite <- (map_map snd Z.of_nat).
  apply Finite.Injective_map_NoDup.
  - intros a b. apply Nat2Z.inj.
  - apply topk_row_positions_NoDup.
Qed.

Lemma row_indices_in_range (xs : list float) (k : nat) :
  Forall (fun i => (0 <= i < Z.of_nat (length xs))%Z)
         (row_indices (topk_row xs k)).
Proof.
  unfold row_indices. apply Forall_forall. intros i Hin.
  apply in_map_iff in Hin. destruct Hin as (e & <- & Hin).
  apply topk_row_positional in Hin. lia.
Qed.

Lemma row_indices_length (xs : list float) (k : nat) :
  (k <= length xs)%nat -> length (row_indices (topk_row xs k)) = k.
Proof.
  intros Hk. unfold row_indices. rewrite length_map.
  now apply topk_row_length.
Qed.

(** Picking regions by the indices of a flat top-k. *)
Lemma pick_actions_flat (actions : list region) (xs : list float) (k : Z) :
  length xs = length actions ->
  (0 <= k <= Z.of_nat (length xs))%Z ->
  exists sensed,
    SensingAlgorithm.pick_actions actions k
      (Vector (row_indices (topk_row xs (Z.to_nat k)))) = Ok sensed
    /\ Forall2 (fun i a => nth_error actions (Z.to_nat i) = Some a)
               (row_indices (topk_row xs (Z.to_nat k))) sensed.
Proof.
  intros Hlen Hk.
  pose proof (row_indices_in_range xs (Z.to_nat k)) as Hrange.
  rewrite Hlen in Hrange.
  assert (Hn : length (row_indices (topk_row xs (Z.to_nat k))) = Z.to_nat k)
    by (apply row_indices_length; lia).
  unfold SensingAlgorithm.pick_actions.
  destruct (k =? 1)%Z eqn:Hk1.
  - apply Z.eqb_eq in Hk1. subst k.
    change (Z.to_nat 1) with 1%nat in *.
    destruct (row_indices (topk_row xs 1)) as [|i [|j rest]];
      simpl in Hn; try discriminate.
    pose proof (Forall_inv Hrange) as Hi. simpl in Hi.
    destruct (list_getitem_in_range actions Hi) as (a & Hget & Hnth).
    exists [a]. split.
    + unfold list_getitem_tensor, tensor_index. simpl. rewrite Hget.
      reflexivity.
    + constructor; [exact Hnth | constructor].
  - simpl. apply rmap_getitem_scalars. exact Hrange.
Qed.

End Selection.

(** ** One round *)

Section Step.
Context {region point E P G : Type}.
Context `{Process region point P} `{Estimator region point E}.
Context `{Region region} `{Generator G} `{FloatOps}.
Local Abbreviation policy := (policy region point E P G).
Local Abbreviation record := (record region point).
Local Abbreviation eg :=
  (EpsilonGreedySense.eg_methods : methods policy region point).

Lemma step_run (actions : list region) (verbose index points : bool)
    (s : policy) :
  EpsilonGreedySense.step actions verbose index points s =
    match SensingAlgorithm.select eg actions verbose s with
    | (Raise e, s0) => (Raise e, s0)
    | (Ok (sensed, idx), s0) =>
        match SensingAlgorithm.sense_loop eg sensed 0 None s0 with
        | (Raise e, s1) => (Raise e, s1)
        | (Ok (c, pl), s1) =>
            (Ok (c, SensingAlgorithm.summary points pl, sensed, idx), s1)
        end
    end.
Proof.
  unfold EpsilonGreedySense.step, SensingAlgorithm.step, bind.
  destruct (SensingAlgorithm.select _ actions verbose s)
    as [[[sensed idx]|e] s0]; [|reflexivity].
  destruct (SensingAlgorithm.sense_loop _ sensed 0 None s0)
    as [[[c pl]|e] s1]; reflexivity.
Qed.

(** What the selection leaves alone, and what it does to the counter. *)
Lemma select_frame (actions : list region) (verbose : bool) (s : policy)
    r s0 :
  SensingAlgorithm.select eg actions verbose s = (r, s0) ->
  data s0 = data s /\ topk s0 = topk s /\ w s0 = w s /\ dt s0 = dt s
  /\ process s0 = process s
  /\ t s0 = (if is_ok (fst (fit_gp (estimator s)))
             then t s + 1 else t s)%Z.
Proof.
  rewrite select_run.
  destruct (fit_gp (estimator s)) as [[u|e] est']; simpl.
  - destruct (acquisition_function_flat actions (set_estimator est' s))
      as (xs & g' & Hacq & _).
    rewrite Hacq. simpl.
    intros Hrun.
    assert (Hs0 : s0 = set_gen g' (set_t (t s + 1) (set_estimator est' s))).
    { destruct (torch_topk (Flat xs) (topk s)) as [sel|e];
        [|inversion Hrun; reflexivity].
      destruct (SensingAlgorithm.pick_actions actions (topk s) (snd sel));
        [|inversion Hrun; reflexivity].
      destruct verbose; [|inversion Hrun; reflexivity].
      destruct (data s); inversion Hrun; reflexivity. }
    subst s0. simpl. repeat split; reflexivity.
  - intros Hrun; inversion Hrun; subst; simpl. repeat split; reflexivity.
Qed.

(** A selection that returns has taken the [topk] best positions of a flat
    score vector over the candidates. *)
Lemma select_selected (actions : list region) (verbose : bool) (s : policy)
    sensed idx s0 :
  SensingAlgorithm.select eg actions verbose s = (Ok (sensed, idx), s0) ->
  exists positions : list Z,
    idx = Vector positions
    /\ (0 <= topk s <= Z.of_nat (length actions))%Z
    /\ length positions = Z.to_nat (topk s)
    /\ NoDup positions
    /\ Forall (fun i => (0 <= i < Z.of_nat (length actions))%Z) positions
    /\ Forall2 (fun i a => nth_error actions (Z.to_nat i) = Some a)
               positions sensed.
Proof.
  rewrite select_run.
  destruct (fit_gp (estimator s)) as [[u|e] est']; [|discriminate].
  destruct (acquisition_function_flat actions (set_estimator est' s))
    as (xs & g' & Hacq & Hlen).
  rewrite Hacq. simpl. unfold torch_topk.
  destruct ((0 <=? topk s)%Z && (topk s <=? Z.of_nat (length xs))%Z)
    eqn:Hk; [|discriminate].
  apply andb_true_iff in Hk. destruct Hk as [Hk0 Hk1].
  apply Z.leb_le in Hk0. apply Z.leb_le in Hk1.
  destruct (pick_actions_flat actions xs Hlen (conj Hk0 Hk1))
    as (sensed' & Hpick & Hpos).
  simpl snd. rewrite Hpick.
  intros Hrun.
  assert (Heq : sensed = sensed'
                /\ idx = Vector (row_indices (topk_row xs (Z.to_nat (topk s))))).
  { destruct verbose; [destruct (data s)|]; inversion Hrun; subst;
      split; reflexivity. }
  destruct Heq as [-> ->].
  exists (row_indices (topk_row xs (Z.to_nat (topk s)))).
  split; [reflexivity|]. split; [lia|].
  split; [apply row_indices_length; lia|].
  split; [apply row_indices_NoDup|].
  split; [rewrite <- Hlen; apply row_indices_in_range | exact Hpos].
Qed.

(** With the scoring of the epsilon-greedy policy, a round that returns has
    chosen exactly [topk] regions at [topk] distinct positions of the
    candidate list, each region being the candidate at its position. *)
Theorem step_chooses_topk (actions : list region)
    (verbose index points : bool) (s : policy) cost out regs idx s' :
  EpsilonGreedySense.step actions verbose index points s
    = (Ok (cost, out, regs, idx), s') ->
  exists positions : list Z,
    idx = Vector positions
    /\ (0 <= topk s <= Z.of_nat (length actions))%Z
    /\ length positions = Z.to_nat (topk s)
    /\ length regs = Z.to_nat (topk s)
    /\ NoDup positions
    /\ Forall (fun i => (0 <= i < Z.of_nat (length actions))%Z) positions
    /\ Forall2 (fun i a => nth_error actions (Z.to_nat i) = Some a)
               positions regs.
Proof.
  rewrite step_run.
  destruct (SensingAlgorithm.select eg actions verbose s)
    as [[[sensed idx0]|e] s0] eqn:Hsel; [|discriminate].
  destruct (SensingAlgorithm.sense_loop eg sensed 0 None s0)
    as [[[c pl]|e] s1]; [|discriminate].
  intros Hrun; inversion Hrun; subst.
  destruct (select_selected _ _ _ Hsel)
    as (positions & Hidx & Hk & Hlen & Hnd & Hrange & Hpos).
  exists positions. repeat split; auto; try lia.
  rewrite <- Hlen. symmetry. eapply Forall2_length; eauto.
Qed.

(** A round raises what its stages raise, in the state they leave. *)
Lemma step_raises_what_its_stages_raise (actions : list region)
    (verbose index points : bool) (s : policy) e s' :
  EpsilonGreedySense.step actions verbose index points s = (Raise e, s') <->
  SensingAlgorithm.select eg actions verbose s = (Raise e, s')
  \/ exists sensed idx s0,
       SensingAlgorithm.select eg actions verbose s = (Ok (sensed, idx), s0)
       /\ SensingAlgorithm.sense_loop eg sensed 0 None s0 = (Raise e, s').
Proof.
  rewrite step_run.
  destruct (SensingAlgorithm.select eg actions verbose s)
    as [[[sensed idx]|e0] s0] eqn:Hsel.
  - destruct (SensingAlgorithm.sense_loop eg sensed 0 None s0)
      as [[[c pl]|e1] s1] eqn:Hloop.
    + split; [discriminate|].
      intros [Hc | (sensed' & idx' & s0' & Heq & Hc)]; [discriminate|].
      inversion Heq; subst. rewrite Hloop in Hc. discriminate.
    + split.
      * intros Heq; inversion Heq; subst. right.
        exists sensed, idx, s0. split; [reflexivity | exact Hloop].
      * intros [Hc | (sensed' & idx' & s0' & Heq & Hc)]; [discriminate|].
        inversion Heq; subst. rewrite Hloop in Hc.
        inversion Hc; subst. reflexivity.
  - split.
    + intros Heq; left. inversion Heq; subst. reflexivity.
    + intros [Hc | (sensed' & idx' & s0' & Heq & _)]; [|discriminate].
      inversion Hc; subst. reflexivity.
Qed.

(** After a fit that returned, on a dataset that is a list and with
    [topk] within the number of candidates, the selection returns. *)
Lemma select_after_fit_returns (actions : list region) (verbose : bool)
    (s : policy) d u est' :
  data s = Some d ->
  (0 <= topk s <= Z.of_nat (length actions))%Z ->
  fit_gp (estimator s) = (Ok u, est') ->
  exists sensed idx s0,
    SensingAlgorithm.select eg actions verbose s = (Ok (sensed, idx), s0)
    /\ data s0 = Some d /\ dt s0 = dt s /\ process s0 = process s
    /\ estimator s0 = est'.
Proof.
  intros Hd Hk Hf.
  rewrite select_run, Hf.
  destruct (acquisition_function_flat actions (set_estimator est' s))
    as (xs & g' & Hacq & Hlen).
  rewrite Hacq. simpl. unfold torch_topk.
  replace ((0 <=? topk s)%Z && (topk s <=? Z.of_nat (length xs))%Z)
    with true.
  - rewrite <- Hlen in Hk.
    destruct (pick_actions_flat actions xs Hlen Hk) as (sensed & Hpick & _).
    simpl snd. rewrite Hpick.
    exists sensed, (Vector (row_indices (topk_row xs (Z.to_nat (topk s))))).
    eexists. split.
    + destruct verbose; [rewrite Hd|]; reflexivity.
    + simpl. repeat split; auto.
  - symmetry. apply andb_true_iff. split; apply Z.leb_le; lia.
Qed.

(** The loop returns when the process answers the samplings of its
    regions and the estimator ingests the records built from them. *)
Lemma sense_loop_returns (sensed : list region) :
  forall (c : float) (pl : option (list point)) (s : policy) d obs p',
  data s = Some d ->
  sample_run sensed (dt s) (process s) = (Ok obs, p') ->
  is_ok (fst (ingest_run (records_of sensed obs (dt s)) (estimator s)))
    = true ->
  is_ok (fst (SensingAlgorithm.sense_loop eg sensed c pl s)) = true.
Proof.
  induction sensed as [|a sensed IH]; intros c pl s d obs p' Hd Hsam Hing.
  - reflexivity.
  - rewrite sense_loop_cons, sense_run. simpl in *.
    destruct (sample a (dt s) (process s)) as [[o|e] p1]; simpl in *;
      [|discriminate].
    destruct (sample_run sensed (dt s) p1) as [[os|e] p2] eqn:Hrest;
      [|discriminate].
    inversion Hsam; subst obs p'. clear Hsam.
    unfold records_of in Hing. simpl in Hing.
    rewrite add_data_run. simpl.
    destruct (add_data_point (a, o, dt s) (estimator s)) as [[u|e] est'];
      simpl in *; [|discriminate].
    rewrite Hd.
    apply (IH _ _ _ (d ++ [(a, o, dt s)]) os p2);
      [reflexivity | exact Hrest | exact Hing].
Qed.

(** On a dataset that is a list, with [topk] between 0 and the number of
    candidates and a fit that returns, the selection returns; and the
    round then returns, with the regions and indices selected, as soon as
    the process answers the samplings of those regions and the estimator,
    as its fit left it, ingests the records built from the answers. *)
Theorem step_returns (actions : list region) (verbose index points : bool)
    (s : policy) d u est' :
  data s = Some d ->
  (0 <= topk s <= Z.of_nat (length actions))%Z ->
  fit_gp (estimator s) = (Ok u, est') ->
  exists sensed idx s0,
    SensingAlgorithm.select EpsilonGreedySense.eg_methods actions verbose s
      = (Ok (sensed, idx), s0)
    /\ forall obs p',
         sample_run sensed (dt s) (process s) = (Ok obs, p') ->
         is_ok (fst (ingest_run (records_of sensed obs (dt s)) est')) = true ->
         exists cost out s',
           EpsilonGreedySense.step actions verbose index points s
           = (Ok (cost, out, sensed, idx), s').
Proof.
  intros Hd Hk Hf.
  destruct (select_after_fit_returns actions verbose s Hd Hk Hf)
    as (sensed & idx & s0 & Hsel & Hd0 & Hdt & Hp & He).
  exists sensed, idx, s0. split; [exact Hsel|].
  intros obs p' Hsam Hing.
  rewrite step_run, Hsel.
  rewrite <- Hdt, <- Hp in Hsam. rewrite <- Hdt, <- He in Hing.
  pose proof (sense_loop_returns sensed 0 None s0 Hd0 Hsam Hing) as Hloop.
  destruct (SensingAlgorithm.sense_loop eg sensed 0 None s0)
    as [[[c pl]|e] s1]; [|discriminate].
  eexists; eexists; eexists; reflexivity.
Qed.

End Step.

Section Rounds.
Context {region point E P G : Type}.
Context `{Process region point P} `{Estimator region point E}.
Context `{Region region} `{Generator G} `{FloatOps}.
Local Abbreviation policy := (policy region point E P G).
Local Abbreviation record := (record region point).
Local Abbreviation eg :=
  (EpsilonGreedySense.eg_methods : methods policy region point).

(** C4.  The point output of a round is the null-safe merge of the
    observations of the chosen regions, taken in selection order from the
    records the round appended to the dataset: null observations are
    skipped and the others concatenated.  When exactly one chosen region
    yields non-null points, the raw output is that region's points as they
    are (and the count their number); when every chosen region yields
    null, the raw output is None and the count is 0. *)
Theorem step_point_merge (actions : list region)
    (verbose index points : bool) (s : policy) d cost out regs idx s' :
  data s = Some d ->
  EpsilonGreedySense.step actions verbose index points s
    = (Ok (cost, out, regs, idx), s') ->
  exists recs : list record,
    data s' = Some (d ++ recs)
    /\ map rec_region recs = regs
    /\ (out = if points then Points (merged (map rec_points recs))
              else Count (match merged (map rec_points recs) with
                          | Some buf => Z.of_nat (length buf)
                          | None => 0%Z
                          end))
    /\ (forall pre pts post,
          map rec_points recs = pre ++ Some pts :: post ->
          all_null pre -> all_null post ->
          out = if points then Points (Some pts)
                else Count (Z.of_nat (length pts)))
    /\ (all_null (map rec_points recs) ->
        out = if points then Points None else Count 0%Z).
Proof.
  intros Hd. rewrite step_run.
  destruct (SensingAlgorithm.select eg actions verbose s)
    as [[[sensed idx0]|e] s0] eqn:Hsel; [|discriminate].
  destruct (SensingAlgorithm.sense_loop eg sensed 0 None s0)
    as [[[c pl]|e] s1] eqn:Hloop; [|discriminate].
  intros Hrun; inversion Hrun; subst; clear Hrun.
  apply select_frame in Hsel. destruct Hsel as (Hd0 & _).
  rewrite Hd in Hd0.
  destruct (sense_loop_completed _ _ _ _ Hd0 Hloop)
    as (recs & Hdata & Hreg & Hpl & _).
  rewrite merge_fold in Hpl.
  exists recs. split; [exact Hdata|]. split; [exact Hreg|].
  assert (Hout : SensingAlgorithm.summary points pl
                 = if points then Points (merged (map rec_points recs))
                   else Count (match merged (map rec_points recs) with
                               | Some buf => Z.of_nat (length buf)
                               | None => 0%Z
                               end)).
  { subst pl. unfold SensingAlgorithm.summary.
    destruct points, (merged (map rec_points recs)); reflexivity. }
  split; [exact Hout|]. split.
  - intros pre pts post Hobs Hpre Hpost. rewrite Hout, Hobs.
    now rewrite merged_single.
  - intros Hall. rewrite Hout. now rewrite merged_all_null.
Qed.


End Rounds.

(** ** The round counter and the null dataset *)

Section Counter.
Context {region point E P G : Type}.
Context `{Process region point P} `{Estimator region point E}.
Context `{Region region} `{Generator G} `{FloatOps}.
Local Abbreviation policy := (policy region point E P G).
Local Abbreviation record := (record region point).
Local Abbreviation eg :=
  (EpsilonGreedySense.eg_methods : methods policy region point).

Lemma step_frame (actions : list region) (verbose index points : bool)
    (s : policy) r s' :
  EpsilonGreedySense.step actions verbose index points s = (r, s') ->
  topk s' = topk s /\ w s' = w s /\ dt s' = dt s
  /\ (data s = None -> data s' = None)
  /\ t s' = (if is_ok (fst (fit_gp (estimator s)))
             then t s + 1 else t s)%Z.
Proof.
  rewrite step_run.
  destruct (SensingAlgorithm.select eg actions verbose s)
    as [[[sensed idx]|e] s0] eqn:Hsel;
    apply select_frame in Hsel;
    destruct Hsel as (Hd & Hk & Hw & Hdt & _ & Ht).
  - destruct (SensingAlgorithm.sense_loop eg sensed 0 None s0)
      as [rl s1] eqn:Hloop.
    apply sense_loop_frame in Hloop.
    destruct Hloop as (Ht1 & Hk1 & _ & Hw1 & Hdt1 & Hd1).
    intros Hrun.
    assert (s' = s1) by (destruct rl as [[c pl]|e]; now inversion Hrun).
    subst s'. rewrite Ht1, Hk1, Hw1, Hdt1. repeat split; auto.
    intros Hnone. apply Hd1. now rewrite Hd.
  - intros Hrun; inversion Hrun; subst. repeat split; auto.
    intros Hnone. now rewrite Hd.
Qed.

Lemma step_ok_fit_ok (actions : list region) (verbose index points : bool)
    (s : policy) :
  is_ok (fst (EpsilonGreedySense.step actions verbose index points s)) = true ->
  is_ok (fst (fit_gp (estimator s))) = true.
Proof.
  rewrite step_run, select_run.
  destruct (fit_gp (estimator s)) as [[u|e] est']; simpl; auto.
Qed.

(** C7 (as amended).  The round counter is 0 after construction; every
    call to [acquisition_function] adds exactly 1 to it, whatever the call
    does next; no other method changes it.  [step] changes it only through
    its scoring call: a round that returns, and more generally a round
    whose fit returns, has added exactly 1; a round aborted by the fit has
    left it as it was. *)
Theorem round_counter_follows_scoring :
  (forall process0 estimator0 w0 d0 eps0 dt0 k0 g0 (s : policy),
     EpsilonGreedySense.init process0 estimator0 w0 d0 eps0 dt0 k0 g0 = Ok s ->
     t s = 0%Z)
  /\ (forall actions (s : policy),
        t (snd (EpsilonGreedySense.acquisition_function actions s))
        = (t s + 1)%Z)
  /\ (forall s : policy, t (snd (EpsilonGreedySense.fit_estimator s)) = t s)
  /\ (forall r (s : policy), t (snd (EpsilonGreedySense.add_data r s)) = t s)
  /\ (forall a (s : policy), t (snd (EpsilonGreedySense.sense a s)) = t s)
  /\ (forall s : policy, t (snd (EpsilonGreedySense.count_events s)) = t s)
  /\ (forall D n (s : policy),
        t (snd (EpsilonGreedySense.best_point_so_far D n s)) = t s)
  /\ (forall actions verbose index points (s : policy),
        (is_ok (fst (EpsilonGreedySense.step actions verbose index points s))
         = true ->
         t (snd (EpsilonGreedySense.step actions verbose index points s))
         = (t s + 1)%Z)
        /\ (is_ok (fst (EpsilonGreedySense.fit_estimator s)) = true ->
            t (snd (EpsilonGreedySense.step actions verbose index points s))
            = (t s + 1)%Z)
        /\ (is_ok (fst (EpsilonGreedySense.fit_estimator s)) = false ->
            t (snd (EpsilonGreedySense.step actions verbose index points s))
            = t s)).
Proof.
  split; [|split; [|split; [|split; [|split; [|split; [|split]]]]]].
  - intros process0 estimator0 w0 d0 eps0 dt0 k0 g0 s.
    unfold EpsilonGreedySense.init.
    destruct (load_data d0 estimator0) as [[u|e] est']; [|discriminate].
    intros Heq; inversion Heq; reflexivity.
  - intros actions s.
    destruct (acquisition_function_flat actions s) as (xs & g' & Hacq & _).
    rewrite Hacq. reflexivity.
  - intros s. unfold EpsilonGreedySense.fit_estimator, call_estimator.
    destruct (fit_gp (estimator s)) as [r est']. reflexivity.
  - intros r s. rewrite add_data_run. simpl.
    destruct (fst (add_data_point r (estimator s))); [|reflexivity].
    destruct (data s); reflexivity.
  - intros a s. unfold EpsilonGreedySense.sense. rewrite sense_run.
    reflexivity.
  - intros s. unfold EpsilonGreedySense.count_events,
      SensingAlgorithm.count_events. run_method.
    destruct (data s); reflexivity.
  - intros D n s. unfold EpsilonGreedySense.best_point_so_far,
      SensingAlgorithm.best_point_so_far. run_method.
    destruct (mean_rate (estimator s) D n) as [v|e]; [|reflexivity].
    destruct (torch_argmax v) as [i|e]; [|reflexivity].
    destruct (nth_error (return_discretization D n) i); reflexivity.
  - intros actions verbose index points s.
    destruct (EpsilonGreedySense.step actions verbose index points s)
      as [r s'] eqn:Hrun.
    pose proof (step_ok_fit_ok actions verbose index points s) as Hfit.
    rewrite Hrun in Hfit.
    apply step_frame in Hrun. destruct Hrun as (_ & _ & _ & _ & Ht).
    assert (Hf : fst (EpsilonGreedySense.fit_estimator s)
                 = fst (fit_gp (estimator s))).
    { unfold EpsilonGreedySense.fit_estimator, call_estimator.
      destruct (fit_gp (estimator s)); reflexivity. }
    rewrite Hf. simpl in *.
    split; [|split].
    + intros Hok. rewrite Ht, (Hfit Hok). reflexivity.
    + intros Hok. rewrite Ht, Hok. reflexivity.
    + intros Hko. rewrite Ht, Hko. reflexivity.
Qed.


End Counter.

(** ** The best point so far *)

Section ArgMax.

Lemma argmax_from_first_max (xs : list float) :
  forall (seen : list float) (best : float) (besti : nat),
  nth_error seen besti = Some best ->
  Forall (fun y => y <= best) seen ->
  (forall j y, (j < besti)%nat -> nth_error seen j = Some y -> y < best) ->
  exists m,
    nth_error (seen ++ xs) (argmax_from best besti (length seen) xs) = Some m
    /\ Forall (fun y => y <= m) (seen ++ xs)
    /\ (forall j y, (j < argmax_from best besti (length seen) xs)%nat ->
                    nth_error (seen ++ xs) j = Some y -> y < m).
Proof.
  induction xs as [|x xs IH]; intros seen best besti Hbest Hall Hfirst.
  - simpl. rewrite app_nil_r. exists best. repeat split; auto.
  - simpl.
    assert (Hlt : (besti < length seen)%nat)
      by (apply nth_error_Some; now rewrite Hbest).
    replace (seen ++ x :: xs) with ((seen ++ [x]) ++ xs)
      by (now rewrite <- app_assoc).
    replace (S (length seen)) with (length (seen ++ [x]))
      by (rewrite length_app; simpl; lia).
    destruct (Qle_bool x best) eqn:Hle.
    + apply Qle_bool_iff in Hle. apply IH.
      * rewrite nth_error_app1; auto.
      * apply Forall_app. split; auto.
      * intros j y Hj Hnth. apply (Hfirst j y Hj).
        rewrite nth_error_app1 in Hnth; auto. lia.
    + assert (Hgt : best < x).
      { apply Qnot_le_lt. intros Hc. apply Qle_bool_iff in Hc. congruence. }
      rewrite length_app. simpl. rewrite Nat.add_1_r.
      replace (S (length seen)) with (length (seen ++ [x]))
        by (rewrite length_app; simpl; lia).
      apply IH.
      * rewrite nth_error_app2; [|lia]. now rewrite Nat.sub_diag.
      * apply Forall_app. split.
        -- eapply Forall_impl; [|exact Hall]. intros y Hy. simpl in Hy.
           apply Qlt_le_weak. eapply Qle_lt_trans; eauto.
        -- constructor; [apply Qle_refl | constructor].
      * intros j y Hj Hnth. rewrite nth_error_app1 in Hnth; auto.
        rewrite Forall_forall in Hall.
        apply nth_error_In in Hnth. apply Hall in Hnth.
        eapply Qle_lt_trans; eauto.
Qed.

(** [torch_argmax] on a non-empty vector: the first position holding the
    largest entry. *)
Lemma torch_argmax_first_max (v : list float) :
  v <> [] ->
  exists i m,
    torch_argmax v = Ok i
    /\ nth_error v i = Some m
    /\ Forall (fun y => y <= m) v
    /\ (forall j y, (j < i)%nat -> nth_error v j = Some y -> y < m).
Proof.
  destruct v as [|x xs]; [congruence|]. intros _.
  destruct (@argmax_from_first_max xs [x] x 0%nat) as (m & Hm & Hall & Hfirst).
  - reflexivity.
  - constructor; [apply Qle_refl | constructor].
  - intros j y Hj. lia.
  - exists (argmax_from x 0 1 xs), m. simpl in *. repeat split; auto.
Qed.

End ArgMax.

Section BestPoint.
Context {region point E P G : Type}.
Context `{Process region point P} `{Estimator region point E}.
Context `{Region region} `{Generator G} `{FloatOps}.
Local Abbreviation policy := (policy region point E P G).

(** C8 (as amended).  [best_point_so_far] makes no check of its own on the
    fitted rate and raises no error of its own for it: an error raised by
    the estimator's grid query is raised unchanged, and when the query
    returns a non-empty vector no longer than the discretization, the
    result is the single row of the discretization at the first position
    where the vector is maximal.  The state is left as it was. *)
Theorem best_point_so_far_delegates (D : region) (n : Z) (s : policy) :
  (forall e, mean_rate (estimator s) D n = Raise e ->
     SensingAlgorithm.best_point_so_far D n s = (Raise e, s))
  /\ (forall v, mean_rate (estimator s) D n = Ok v ->
        v <> [] ->
        (length v <= length (return_discretization D n))%nat ->
        exists i m row,
          SensingAlgorithm.best_point_so_far D n s = (Ok [row], s)
          /\ nth_error (return_discretization D n) i = Some row
          /\ nth_error v i = Some m
          /\ Forall (fun y => y <= m) v
          /\ (forall j y, (j < i)%nat -> nth_error v j = Some y -> y < m)).
Proof.
  unfold SensingAlgorithm.best_point_so_far. run_method. split.
  - intros e He. rewrite He. reflexivity.
  - intros v Hv Hne Hlen. rewrite Hv.
    destruct (torch_argmax_first_max Hne) as (i & m & Harg & Hm & Hall & Hfirst).
    rewrite Harg.
    assert (Hi : (i < length (return_discretization D n))%nat).
    { assert (i < length v)%nat by (apply nth_error_Some; now rewrite Hm).
      lia. }
    destruct (nth_error (return_discretization D n) i) as [row|] eqn:Hrow.
    + exists i, m, row. repeat split; auto.
    + apply nth_error_None in Hrow. lia.
Qed.

End BestPoint.

(** ** The scoring of the base class *)

Section BaseScoring.
Context {region point E P G : Type}.
Context `{Process region point P} `{Estimator region point E}.
Context `{Region region} `{Generator G} `{FloatOps}.
Local Abbreviation policy := (policy region point E P G).
Local Abbreviation record := (record region point).

Lemma concat_singletons_length {A} (xs : list float) (f : float -> A) :
  length (concat (map (fun x => [f x]) xs)) = length xs.
Proof.
  induction xs as [|x xs IH]; simpl; [reflexivity | now rewrite IH].
Qed.

(** The column of scores of the base class defeats the selection: with
    [topk = 1] the indices come back as a column of zeros, one per
    candidate, which indexes the candidate list only when there is a
    single candidate; with [topk >= 2] the top-k itself raises. *)
Lemma base_scoring_defeats_selection
    (add : record -> M policy unit) (actions : list region)
    (verbose index points : bool) (s : policy) :
  let self := mkMethods SensingAlgorithm.fit_estimator
                        SensingAlgorithm.acquisition_function add in
  (2 <= length actions)%nat ->
  (topk s = 1%Z ->
   fst (SensingAlgorithm.step self actions verbose index points s)
   = Raise TypeError)
  /\ ((2 <= topk s)%Z ->
      fst (SensingAlgorithm.step self actions verbose index points s)
      = Raise RuntimeError).
Proof.
  intros self Hm.
  pose proof (draws_length (length actions) (gen s)) as Hlen.
  split; intros Hk;
    unfold SensingAlgorithm.step, SensingAlgorithm.select, self,
      SensingAlgorithm.fit_estimator, SensingAlgorithm.acquisition_function;
    unfold bind; simpl; rewrite random_scores_draws;
    destruct (draws (length actions) (gen s)) as [xs g2]; simpl in *;
    unfold ret, gets, lift; simpl; unfold torch_topk.
  - rewrite Hk. simpl.
    unfold SensingAlgorithm.pick_actions, list_getitem_tensor, tensor_index.
    simpl.
    destruct xs as [|x [|y xs]]; simpl in Hlen; try lia.
    reflexivity.
  - replace ((0 <=? topk s)%Z && (topk s <=? 1)%Z) with false.
    + reflexivity.
    + symmetry. apply andb_false_iff. right. apply Z.leb_gt. lia.
Qed.

End BaseScoring.

(** ** The properties on the concrete world *)

Section Examples.
Local Open Scope Z_scope.

(** C1.  A policy that keeps the scoring of the base class, with
    [topk = 1] and two candidate regions: [step] does not return one
    region and one index, it raises [TypeError] at [actions[best_indices]],
    the index tensor holding one zero per candidate.  The same happens on
    the method table of the base class itself. *)
Theorem step_with_base_scoring_raises :
  fst (SensingAlgorithm.step Toy.base_scoring [10%nat; 11%nat]
         false false false
         (Toy.make Toy.loaded [] (Some [Toy.rec0]) 1 [5%Q; 7%Q]))
  = Raise TypeError
  /\ fst (SensingAlgorithm.step SensingAlgorithm.base_methods
            [10%nat; 11%nat] false false false
            (Toy.make Toy.loaded [] (Some [Toy.rec0]) 1 [5%Q; 7%Q]))
     = Raise TypeError
  /\ torch_topk (Column [5%Q; 7%Q]) 1
     = Ok (Matrix [[5%Q]; [7%Q]], Matrix [[0]; [0]]).
Proof. repeat split; vm_compute; reflexivity. Qed.

Lemma step_chooses_topk_witness :
  EpsilonGreedySense.step [10%nat; 11%nat; 12%nat] false false true Toy.quiet
  = (Ok (69%Q, Points (Some [4; 5]), [12%nat; 11%nat; 10%nat],
         Vector [2; 1; 0]), Toy.quiet_after)
  /\ exists positions : list Z,
       Vector [2; 1; 0] = Vector positions
       /\ (0 <= 3 <= 3)
       /\ length positions = 3%nat
       /\ length [12%nat; 11%nat; 10%nat] = 3%nat
       /\ NoDup positions
       /\ Forall (fun i => 0 <= i < 3) positions
       /\ Forall2 (fun i a =>
                     nth_error [10%nat; 11%nat; 12%nat] (Z.to_nat i) = Some a)
                  positions [12%nat; 11%nat; 10%nat].
Proof.
  assert (Hrun :
    EpsilonGreedySense.step [10%nat; 11%nat; 12%nat] false false true
      Toy.quiet
    = (Ok (69%Q, Points (Some [4; 5]), [12%nat; 11%nat; 10%nat],
           Vector [2; 1; 0]), Toy.quiet_after))
    by (vm_compute; reflexivity).
  split; [exact Hrun|].
  exact (step_chooses_topk _ _ _ _ _ Hrun).
Defined.

Lemma step_returns_witness :
  data Toy.quiet = Some [Toy.rec0]
  /\ fit_gp (estimator Toy.quiet) = (Ok tt, Toy.trained)
  /\ sample_run [12%nat; 11%nat; 10%nat] (dt Toy.quiet) (process Toy.quiet)
     = (Ok [None; Some [4; 5]; None], [])
  /\ exists cost out s',
       EpsilonGreedySense.step [10%nat; 11%nat; 12%nat] false false true
         Toy.quiet
       = (Ok (cost, out, [12%nat; 11%nat; 10%nat], Vector [2; 1; 0]), s').
Proof.
  assert (Hd : data Toy.quiet = Some [Toy.rec0]) by reflexivity.
  assert (Hk : 0 <= topk Toy.quiet
               <= Z.of_nat (length [10%nat; 11%nat; 12%nat]))
    by (simpl; lia).
  assert (Hf : fit_gp (estimator Toy.quiet) = (Ok tt, Toy.trained))
    by reflexivity.
  assert (Hsam :
    sample_run [12%nat; 11%nat; 10%nat] (dt Toy.quiet) (process Toy.quiet)
    = (Ok [None; Some [4; 5]; None], [])) by reflexivity.
  split; [exact Hd|]. split; [exact Hf|]. split; [exact Hsam|].
  destruct (step_returns [10%nat; 11%nat; 12%nat] false false true
              Toy.quiet Hd Hk Hf) as (sensed & idx & s0 & Hsel & Hrun).
  assert (Heq : sensed = [12%nat; 11%nat; 10%nat]
                /\ idx = Vector [2; 1; 0]).
  { vm_compute in Hsel. inversion Hsel. split; reflexivity. }
  destruct Heq as [-> ->].
  apply (Hrun _ _ Hsam). reflexivity.
Defined.

(** C2, counterexample.  Schedule 0, fitted rate, uniform draw 0 (a value
    of [0, 1)): the scores are the two normal draws 5 and 7, not the
    means over the costs. *)
Lemma acquisition_zero_draw_explores :
  let s := Toy.make Toy.trained [] (Some [Toy.rec0]) 1 [0%Q; 5%Q; 7%Q] in
  (forall n, epsilon s n == 0)%Q
  /\ has_rate (estimator s) = true
  /\ (0 <= fst (uniform (gen s)) /\ fst (uniform (gen s)) < 1)%Q
  /\ fst (EpsilonGreedySense.acquisition_function [1%nat; 2%nat] s)
     = Ok (Flat [5%Q; 7%Q])
  /\ fst (EpsilonGreedySense.acquisition_function [1%nat; 2%nat] s)
     <> Ok (Flat (map (fun a => fdiv (mean_set (estimator s) a) (w s a))
                      [1%nat; 2%nat])).
Proof.
  intros s. split; [intros n; reflexivity|].
  split; [reflexivity|]. split.
  - split; vm_compute; [discriminate | reflexivity].
  - split; [vm_compute; reflexivity|].
    vm_compute. discriminate.
Qed.

Lemma acquisition_exploits_on_positive_draw_witness :
  let s := Toy.make Toy.trained [] (Some [Toy.rec0]) 1 [(1 # 2)%Q] in
  (forall n, epsilon s n == 0)%Q
  /\ has_rate (estimator s) = true
  /\ (0 < fst (uniform (gen s)))%Q
  /\ EpsilonGreedySense.acquisition_function [1%nat; 2%nat] s
     = (Ok (Flat (map (fun a => fdiv (mean_set (estimator s) a) (w s a))
                      [1%nat; 2%nat])),
        set_gen (snd (uniform (gen s))) (set_t (t s + 1) s)).
Proof.
  intros s.
  assert (Heps : (forall n, epsilon s n == 0)%Q) by (intros n; reflexivity).
  assert (Hrate : has_rate (estimator s) = true) by reflexivity.
  assert (Hp : (0 < fst (uniform (gen s)))%Q) by reflexivity.
  split; [exact Heps|]. split; [exact Hrate|]. split; [exact Hp|].
  exact (acquisition_exploits_on_positive_draw [1%nat; 2%nat] s
           Heps Hrate Hp).
Defined.

Lemma add_data_estimator_first_witness :
  let s := Toy.make Toy.loaded [] (Some [Toy.rec0]) 1 [] in
  let refused : record Toy.region Toy.point := (100%nat, None, 1%Q) in
  let accepted : record Toy.region Toy.point := (1%nat, Some [3], 1%Q) in
  (EpsilonGreedySense.add_data refused s
   = (Raise (External "InvalidActionError"), set_estimator Toy.loaded s)
   /\ data (snd (EpsilonGreedySense.add_data refused s)) = Some [Toy.rec0]
   /\ fst (EpsilonGreedySense.add_data refused s)
      = Raise (External "InvalidActionError")
   /\ estimator (snd (EpsilonGreedySense.add_data refused s)) = Toy.loaded)
  /\ (EpsilonGreedySense.add_data accepted s
      = (Ok tt,
         set_data (Some ([Toy.rec0] ++ [accepted]))
           (set_estimator (Toy.mkE [Toy.rec0; accepted] false false) s))
      /\ fst (EpsilonGreedySense.add_data accepted s) = Ok tt
      /\ data (snd (EpsilonGreedySense.add_data accepted s))
         = Some ([Toy.rec0] ++ [accepted])
      /\ estimator (snd (EpsilonGreedySense.add_data accepted s))
         = Toy.mkE [Toy.rec0; accepted] false false).
Proof.
  intros s refused accepted. split.
  - apply (proj1 (add_data_estimator_first refused s)). reflexivity.
  - apply (proj1 (proj2 (add_data_estimator_first accepted s)) tt);
      reflexivity.
Defined.

Lemma step_point_merge_witness :
  data Toy.quiet = Some [Toy.rec0]
  /\ exists recs : list (record Toy.region Toy.point),
       data Toy.quiet_after = Some ([Toy.rec0] ++ recs)
       /\ map rec_region recs = [12%nat; 11%nat; 10%nat]
       /\ Points (Some [4; 5]) = Points (merged (map rec_points recs))
       /\ (forall pre pts post,
             map rec_points recs = pre ++ Some pts :: post ->
             all_null pre -> all_null post ->
             Points (Some [4; 5]) = Points (Some pts))
       /\ (all_null (map rec_points recs) ->
           Points (Some [4; 5]) = Points None).
Proof.
  split; [reflexivity|].
  assert (Hrun :
    EpsilonGreedySense.step [10%nat; 11%nat; 12%nat] false false true
      Toy.quiet
    = (Ok (69%Q, Points (Some [4; 5]), [12%nat; 11%nat; 10%nat],
           Vector [2; 1; 0]), Toy.quiet_after))
    by (vm_compute; reflexivity).
  exact (step_point_merge [10%nat; 11%nat; 12%nat] false false true
           Toy.quiet (d := [Toy.rec0]) eq_refl Hrun).
Defined.

Lemma count_events_is_total_witness :
  let s := Toy.make Toy.loaded [] (Some Toy.four_records) 1 [] in
  data s = Some Toy.four_records
  /\ SensingAlgorithm.count_events s = (Ok (2 + 0 + 0 + 1), s).
Proof.
  intros s. split; [reflexivity|].
  exact (proj1 (count_events_is_total s eq_refl)).
Defined.

Lemma acquisition_random_without_rate_witness :
  let s := Toy.make Toy.loaded [] (Some [Toy.rec0]) 1 [(1 # 2)%Q; 5%Q; 7%Q] in
  has_rate (estimator s) = false
  /\ EpsilonGreedySense.acquisition_function [1%nat; 2%nat] s
     = (Ok (Flat [5%Q; 7%Q]), set_gen [] (set_t 1 s)).
Proof.
  intros s. split; [reflexivity|].
  exact (proj1 (acquisition_random_without_rate [1%nat; 2%nat] s eq_refl)).
Defined.

Lemma round_counter_follows_scoring_witness :
  (exists s : Toy.policy,
     EpsilonGreedySense.init ([] : Toy.P) Toy.loaded Toy.cost
       (Some [Toy.rec0]) Toy.zero_schedule 1%Q 1 ([] : Toy.G) = Ok s
     /\ t s = 0)
  /\ is_ok (fst (EpsilonGreedySense.step [10%nat; 11%nat; 12%nat]
                   false false true Toy.quiet)) = true
  /\ t Toy.quiet_after = t Toy.quiet + 1.
Proof.
  pose proof (@round_counter_follows_scoring Toy.region Toy.point Toy.E
                Toy.P Toy.G _ _ _ _ _) as Hall.
  split.
  - eexists. split; [reflexivity|].
    apply (proj1 Hall ([] : Toy.P) Toy.loaded Toy.cost (Some [Toy.rec0])
                 Toy.zero_schedule 1%Q 1 ([] : Toy.G)).
    reflexivity.
  - split; [vm_compute; reflexivity|].
    apply (proj1 (proj2 (proj2 (proj2 (proj2 (proj2 (proj2 (proj2 Hall))))))
                    [10%nat; 11%nat; 12%nat] false false true Toy.quiet)).
    vm_compute; reflexivity.
Defined.

(** C7, counterexample.  A call to [step] whose fit raises: the scoring
    call is not reached and the round counter keeps its value instead of
    growing by 1. *)
Lemma step_aborted_by_fit_keeps_counter :
  let s := Toy.make Toy.ill [] (Some [Toy.rec0]) 1 [] in
  fst (EpsilonGreedySense.step [10%nat; 11%nat] false false false s)
  = Raise (External "EstimationError")
  /\ t (snd (EpsilonGreedySense.step [10%nat; 11%nat] false false false s))
     = t s
  /\ t (snd (EpsilonGreedySense.step [10%nat; 11%nat] false false false s))
     <> t s + 1.
Proof.
  intros s. split; [|split]; vm_compute; [reflexivity | reflexivity |].
  discriminate.
Qed.

(** C8, counterexample.  The estimator holds no fitted rate, and the query
    returns a coordinate of the grid instead of failing. *)
Lemma best_point_before_any_fit_returns :
  let s := Toy.make Toy.loaded [] (Some [Toy.rec0]) 1 [] in
  has_rate (estimator s) = false
  /\ SensingAlgorithm.best_point_so_far 5%nat 4 s = (Ok [[5%Q]], s).
Proof. intros s. split; vm_compute; reflexivity. Qed.

Lemma best_point_so_far_delegates_witness :
  let s := Toy.make Toy.trained [] (Some [Toy.rec0]) 1 [] in
  mean_rate (estimator s) 5%nat 4 = Ok [0%Q; 1%Q; 2%Q; 0%Q]
  /\ exists i m row,
       SensingAlgorithm.best_point_so_far 5%nat 4 s = (Ok [row], s)
       /\ nth_error (return_discretization 5%nat 4) i = Some row
       /\ nth_error [0%Q; 1%Q; 2%Q; 0%Q] i = Some m
       /\ Forall (fun y => (y <= m)%Q) [0%Q; 1%Q; 2%Q; 0%Q]
       /\ (forall j y, (j < i)%nat ->
             nth_error [0%Q; 1%Q; 2%Q; 0%Q] j = Some y -> (y < m)%Q).
Proof.
  intros s. split; [reflexivity|].
  apply (proj2 (best_point_so_far_delegates 5%nat 4 s)).
  - reflexivity.
  - discriminate.
  - simpl. lia.
Defined.




End Examples.

(** * Further properties of the loop *)

(** ** Edges of the selection *)

Section SelectionEdges.
Context {region point E P G : Type}.
Context `{Process region point P} `{Estimator region point E}.
Context `{Region region} `{Generator G} `{FloatOps}.
Local Abbreviation policy := (policy region point E P G).
Local Abbreviation record := (record region point).
Local Abbreviation eg :=
  (EpsilonGreedySense.eg_methods : methods policy region point).

(** The selection after a fit that returned: the scores form a flat vector
    over the candidates, drawn in a state that differs from the one left
    by the fit by the counter and the generator only. *)
Lemma select_after_fit (actions : list region) (verbose : bool) (s : policy)
    u est' :
  fit_gp (estimator s) = (Ok u, est') ->
  exists xs g',
    EpsilonGreedySense.acquisition_function actions (set_estimator est' s)
      = (Ok (Flat xs),
         set_gen g' (set_t (t s + 1) (set_estimator est' s)))
    /\ length xs = length actions
    /\ SensingAlgorithm.select eg actions verbose s =
       (match torch_topk (Flat xs) (topk s) with
        | Raise e => Raise e
        | Ok sel =>
            match SensingAlgorithm.pick_actions actions (topk s) (snd sel)
            with
            | Raise e => Raise e
            | Ok sensed =>
                if verbose
                then match data s with
                     | None => Raise TypeError
                     | Some _ => Ok (sensed, snd sel)
                     end
                else Ok (sensed, snd sel)
            end
        end,
        set_gen g' (set_t (t s + 1) (set_estimator est' s))).
Proof.
  intros Hfit.
  destruct (acquisition_function_flat actions (set_estimator est' s))
    as (xs & g' & Hacq & Hlen).
  exists xs, g'. split; [exact Hacq|]. split; [exact Hlen|].
  rewrite select_run, Hfit, Hacq. simpl.
  destruct (torch_topk (Flat xs) (topk s)) as [sel|e]; [|reflexivity].
  destruct (SensingAlgorithm.pick_actions actions (topk s) (snd sel));
    [|reflexivity].
  destruct verbose; [|reflexivity].
  destruct (data s); reflexivity.
Qed.

(** A [topk] that is negative or exceeds the number of candidates (in
    particular any [topk >= 1] on an empty candidate list): once the fit
    has returned, the round raises [RuntimeError] at the top-k, after the
    scoring call; the counter has advanced by one, the dataset and the
    process are untouched. *)
Theorem step_topk_out_of_range_raises (actions : list region)
    (verbose index points : bool) (s : policy) :
  is_ok (fst (fit_gp (estimator s))) = true ->
  (topk s < 0 \/ Z.of_nat (length actions) < topk s)%Z ->
  fst (EpsilonGreedySense.step actions verbose index points s)
    = Raise RuntimeError
  /\ data (snd (EpsilonGreedySense.step actions verbose index points s))
     = data s
  /\ process (snd (EpsilonGreedySense.step actions verbose index points s))
     = process s
  /\ t (snd (EpsilonGreedySense.step actions verbose index points s))
     = (t s + 1)%Z.
Proof.
  intros Hfit Hk.
  destruct (fit_gp (estimator s)) as [[u|e] est'] eqn:Hf; [|discriminate].
  destruct (select_after_fit actions verbose s Hf)
    as (xs & g' & _ & Hlen & Hsel).
  rewrite step_run, Hsel. unfold torch_topk.
  replace ((0 <=? topk s)%Z && (topk s <=? Z.of_nat (length xs))%Z)
    with false.
  - simpl. repeat split; reflexivity.
  - symmetry. apply andb_false_iff. rewrite Hlen.
    destruct Hk as [Hk | Hk]; [left; apply Z.leb_gt | right; apply Z.leb_gt];
      lia.
Qed.

(** With [topk = 0] the round selects and senses nothing: once the fit has
    returned it returns cost 0, no observation, no region and an empty
    index vector, and leaves the dataset and the process as they were
    (under verbose reporting, provided the dataset is a list). *)
Theorem step_with_zero_topk_senses_nothing (actions : list region)
    (verbose index points : bool) (s : policy) :
  is_ok (fst (fit_gp (estimator s))) = true ->
  topk s = 0%Z ->
  verbose = false \/ data s <> None ->
  fst (EpsilonGreedySense.step actions verbose index points s)
    = Ok (0%Q, (if points then Points None else Count 0%Z), [], Vector [])
  /\ data (snd (EpsilonGreedySense.step actions verbose index points s))
     = data s
  /\ process (snd (EpsilonGreedySense.step actions verbose index points s))
     = process s.
Proof.
  intros Hfit Hk Hv.
  destruct (fit_gp (estimator s)) as [[u|e] est'] eqn:Hf; [|discriminate].
  destruct (select_after_fit actions verbose s Hf)
    as (xs & g' & _ & Hlen & Hsel).
  rewrite step_run, Hsel, Hk. unfold torch_topk. simpl.
  unfold SensingAlgorithm.pick_actions. simpl.
  replace (0 <=? Z.of_nat (length xs))%Z with true
    by (symmetry; apply Z.leb_le; lia).
  destruct Hv as [-> | Hd].
  - simpl. destruct points; repeat split; reflexivity.
  - destruct verbose; [destruct (data s) eqn:Hds; [|congruence]|];
      simpl; destruct points; repeat split; auto.
Qed.

(** A fit that raises aborts the round on the spot: the round raises the
    error of the fit and only the estimator, as the fit left it, differs
    from the state before the call. *)
Theorem step_aborted_by_fit (actions : list region)
    (verbose index points : bool) (s : policy) e est' :
  fit_gp (estimator s) = (Raise e, est') ->
  EpsilonGreedySense.step actions verbose index points s
    = (Raise e, set_estimator est' s).
Proof.
  intros Hfit. rewrite step_run, select_run, Hfit. reflexivity.
Qed.

(** [verbose] only reports and [index] is not read: on a dataset that is a
    list, a round gives the same result and leaves the same state whatever
    the two flags are. *)
Theorem step_flags_only_report (actions : list region)
    (verbose index points : bool) (s : policy) :
  data s <> None ->
  EpsilonGreedySense.step actions verbose index points s
  = EpsilonGreedySense.step actions false false points s.
Proof.
  intros Hd. rewrite !step_run, !select_run.
  destruct (fit_gp (estimator s)) as [[u|e] est']; [|reflexivity].
  destruct (acquisition_function_flat actions (set_estimator est' s))
    as (xs & g' & Hacq & _).
  rewrite Hacq. simpl.
  destruct (torch_topk (Flat xs) (topk s)) as [sel|e]; [|reflexivity].
  destruct (SensingAlgorithm.pick_actions actions (topk s) (snd sel));
    [|reflexivity].
  destruct verbose; [|reflexivity].
  destruct (data s); [reflexivity | congruence].
Qed.

End SelectionEdges.

(** ** What a round records *)

Section Records.
Context {region point E P G : Type}.
Context `{Process region point P} `{Estimator region point E}.
Context `{Region region} `{Generator G} `{FloatOps}.
Local Abbreviation policy := (policy region point E P G).
Local Abbreviation record := (record region point).
Local Abbreviation eg :=
  (EpsilonGreedySense.eg_methods : methods policy region point).

(** A completed loop, record by record: regions, durations, what the
    process answered and what the estimator ingested. *)
Lemma sense_loop_trace (sensed : list region) :
  forall (c : float) (pl : option (list point)) (s : policy) d c' pl' s',
  data s = Some d ->
  SensingAlgorithm.sense_loop eg sensed c pl s = (Ok (c', pl'), s') ->
  exists recs : list record,
    data s' = Some (d ++ recs)
    /\ map rec_region recs = sensed
    /\ Forall (fun r => rec_dt r = dt s) recs
    /\ estimator s' = ingest recs (estimator s)
    /\ sample_run sensed (dt s) (process s)
       = (Ok (map rec_points recs), process s').
Proof.
  induction sensed as [|a sensed IH]; intros c pl s d c' pl' s' Hd Hrun.
  - inversion Hrun; subst. exists []. rewrite app_nil_r.
    repeat split; auto.
  - rewrite sense_loop_cons, sense_run in Hrun. simpl in Hrun. simpl.
    destruct (sample a (dt s) (process s)) as [[obs|e] p']; simpl in Hrun;
      [|discriminate].
    rewrite add_data_run in Hrun. simpl in Hrun.
    destruct (add_data_point (a, obs, dt s) (estimator s))
      as [[u|e] est'] eqn:Hing; simpl in Hrun; [|discriminate].
    rewrite Hd in Hrun.
    eapply IH in Hrun; [|reflexivity].
    destruct Hrun as (recs & Hdata & Hreg & Hdt & Hest & Hsam).
    exists ((a, obs, dt s) :: recs). simpl in *.
    rewrite <- app_assoc in Hdata. simpl in Hdata.
    rewrite Hsam, Hreg.
    repeat split; auto.
    unfold ingest in *. simpl. now rewrite Hing.
Qed.

(** The cost of a completed loop, whatever the dataset is. *)
Lemma sense_loop_cost (sensed : list region) :
  forall (c : float) (pl : option (list point)) (s : policy) c' pl' s',
  SensingAlgorithm.sense_loop eg sensed c pl s = (Ok (c', pl'), s') ->
  c' = fold_left (fun acc a => fadd acc (w s a)) sensed c.
Proof.
  induction sensed as [|a sensed IH]; intros c pl s c' pl' s' Hrun.
  - inversion Hrun; subst. reflexivity.
  - rewrite sense_loop_cons, sense_run in Hrun. simpl in Hrun. simpl.
    destruct (sample a (dt s) (process s)) as [[obs|e] p']; simpl in Hrun;
      [|discriminate].
    rewrite add_data_run in Hrun. simpl in Hrun.
    destruct (add_data_point (a, obs, dt s) (estimator s))
      as [[u|e] est']; simpl in Hrun; [|discriminate].
    destruct (data s); [|discriminate].
    apply IH in Hrun. exact Hrun.
Qed.

(** A loop, completed or not, only appends, and appends the records of a
    prefix of the regions it was given. *)
Lemma sense_loop_appends (sensed : list region) :
  forall (c : float) (pl : option (list point)) (s : policy) d r s',
  data s = Some d ->
  SensingAlgorithm.sense_loop eg sensed c pl s = (r, s') ->
  exists recs : list record,
    data s' = Some (d ++ recs)
    /\ (length recs <= length sensed)%nat
    /\ map rec_region recs = firstn (length recs) sensed.
Proof.
  induction sensed as [|a sensed IH]; intros c pl s d r s' Hd Hrun.
  - inversion Hrun; subst. exists []. rewrite app_nil_r. auto.
  - rewrite sense_loop_cons, sense_run in Hrun. simpl in Hrun.
    destruct (sample a (dt s) (process s)) as [[obs|e] p']; simpl in Hrun.
    + rewrite add_data_run in Hrun. simpl in Hrun.
      destruct (add_data_point (a, obs, dt s) (estimator s))
        as [[u|e] est']; simpl in Hrun.
      * rewrite Hd in Hrun.
        eapply IH in Hrun; [|reflexivity].
        destruct Hrun as (recs & Hdata & Hlen & Hreg).
        exists ((a, obs, dt s) :: recs). simpl in *.
        rewrite <- app_assoc in Hdata. simpl in Hdata.
        rewrite Hreg. repeat split; auto. lia.
      * inversion Hrun; subst. exists []. simpl. rewrite app_nil_r.
        repeat split; auto. lia.
    + inversion Hrun; subst. exists []. simpl. rewrite app_nil_r.
      repeat split; auto. lia.
Qed.

Lemma total_events_app (d1 d2 : list record) :
  total_events (d1 ++ d2) = (total_events d1 + total_events d2)%Z.
Proof.
  unfold total_events. induction d1 as [|r d1 IH]; simpl; [reflexivity|].
  rewrite IH. lia.
Qed.

Lemma merged_counts_events (recs : list record) :
  match merged (map rec_points recs) with
  | Some buf => Z.of_nat (length buf)
  | None => 0%Z
  end = total_events recs.
Proof.
  assert (Hlen : Z.of_nat (length (concat (nonnull (map rec_points recs))))
                 = total_events recs).
  { unfold total_events. induction recs as [|r recs IH]; simpl;
      [reflexivity|].
    unfold events_of at 1. destruct (rec_points r) as [pts|]; simpl.
    - rewrite length_app, Nat2Z.inj_add, IH. reflexivity.
    - exact IH. }
  unfold merged. destruct (nonnull (map rec_points recs)) eqn:Hnn.
  - simpl in Hlen. now rewrite <- Hlen.
  - exact Hlen.
Qed.

(** The cost a round reports is the accumulation, from 0 and in selection
    order, of the cost function applied to the chosen regions. *)
Theorem step_cost_accumulates (actions : list region)
    (verbose index points : bool) (s : policy) cost out regs idx s' :
  EpsilonGreedySense.step actions verbose index points s
    = (Ok (cost, out, regs, idx), s') ->
  cost = fold_left (fun acc a => fadd acc (w s a)) regs 0%Q.
Proof.
  rewrite step_run.
  destruct (SensingAlgorithm.select eg actions verbose s)
    as [[[sensed idx0]|e] s0] eqn:Hsel; [|discriminate].
  destruct (SensingAlgorithm.sense_loop eg sensed 0 None s0)
    as [[[c pl]|e] s1] eqn:Hloop; [|discriminate].
  intros Hrun; inversion Hrun; subst; clear Hrun.
  apply select_frame in Hsel. destruct Hsel as (_ & _ & Hw & _).
  apply sense_loop_cost in Hloop. now rewrite Hw in Hloop.
Qed.

(** A round that returns has appended to the dataset one record per
    chosen region, in selection order, each with the configured duration:
    [topk] records in all; and the estimator, in the state its fit left,
    has ingested exactly those records in that order. *)
Theorem step_records_the_round (actions : list region)
    (verbose index points : bool) (s : policy) d cost out regs idx s' :
  data s = Some d ->
  EpsilonGreedySense.step actions verbose index points s
    = (Ok (cost, out, regs, idx), s') ->
  exists recs : list record,
    data s' = Some (d ++ recs)
    /\ map rec_region recs = regs
    /\ Forall (fun r => rec_dt r = dt s) recs
    /\ length recs = Z.to_nat (topk s)
    /\ estimator s' = ingest recs (snd (fit_gp (estimator s))).
Proof.
  intros Hd. rewrite step_run.
  destruct (SensingAlgorithm.select eg actions verbose s)
    as [[[sensed idx0]|e] s0] eqn:Hsel; [|discriminate].
  destruct (SensingAlgorithm.sense_loop eg sensed 0 None s0)
    as [[[c pl]|e] s1] eqn:Hloop; [|discriminate].
  intros Hrun; inversion Hrun; subst; clear Hrun.
  pose proof (select_frame _ _ _ Hsel) as (Hd0 & _ & _ & Hdt & _).
  rewrite Hd in Hd0.
  destruct (sense_loop_trace _ _ _ _ Hd0 Hloop)
    as (recs & Hdata & Hreg & Hdur & Hest & _).
  destruct (select_selected _ _ _ Hsel)
    as (positions & _ & _ & Hlen & _ & _ & Hpos).
  apply Forall2_length in Hpos.
  assert (He0 : estimator s0 = snd (fit_gp (estimator s))).
  { destruct (fit_gp (estimator s)) as [[u|e] est'] eqn:Hf.
    - destruct (select_after_fit actions verbose s Hf)
        as (xs & g' & _ & _ & Hrun).
      rewrite Hrun in Hsel. inversion Hsel; reflexivity.
    - rewrite select_run, Hf in Hsel. discriminate. }
  exists recs. rewrite Hdt in Hdur. rewrite He0 in Hest.
  repeat split; auto.
  rewrite <- Hlen, Hpos, <- Hreg. now rewrite length_map.
Qed.

(** The observations a round records are the answers of the process to
    the samplings of the chosen regions, in selection order and for the
    configured duration; the process is left where the last sampling
    left it. *)
Theorem step_records_the_samples (actions : list region)
    (verbose index points : bool) (s : policy) d cost out regs idx s' :
  data s = Some d ->
  EpsilonGreedySense.step actions verbose index points s
    = (Ok (cost, out, regs, idx), s') ->
  exists recs : list record,
    data s' = Some (d ++ recs)
    /\ sample_run regs (dt s) (process s)
       = (Ok (map rec_points recs), process s').
Proof.
  intros Hd. rewrite step_run.
  destruct (SensingAlgorithm.select eg actions verbose s)
    as [[[sensed idx0]|e] s0] eqn:Hsel; [|discriminate].
  destruct (SensingAlgorithm.sense_loop eg sensed 0 None s0)
    as [[[c pl]|e] s1] eqn:Hloop; [|discriminate].
  intros Hrun; inversion Hrun; subst; clear Hrun.
  pose proof (select_frame _ _ _ Hsel) as (Hd0 & _ & _ & Hdt & Hp & _).
  rewrite Hd in Hd0.
  destruct (sense_loop_trace _ _ _ _ Hd0 Hloop)
    as (recs & Hdata & _ & _ & _ & Hsam).
  exists recs. rewrite Hdt, Hp in Hsam. split; assumption.
Qed.

(** A round, whatever its outcome, leaves the dataset with at most [topk]
    records added at its end. *)
Lemma step_appends (actions : list region) (verbose index points : bool)
    (s : policy) d :
  data s = Some d ->
  exists recs : list record,
    data (snd (EpsilonGreedySense.step actions verbose index points s))
    = Some (d ++ recs)
    /\ (Z.of_nat (length recs) <= Z.max 0 (topk s))%Z.
Proof.
  intros Hd. rewrite step_run.
  destruct (SensingAlgorithm.select eg actions verbose s)
    as [[[sensed idx]|e] s0] eqn:Hsel.
  - pose proof (select_frame _ _ _ Hsel) as (Hd0 & _).
    rewrite Hd in Hd0.
    destruct (select_selected _ _ _ Hsel)
      as (positions & _ & _ & Hlen & _ & _ & Hpos).
    apply Forall2_length in Hpos.
    destruct (SensingAlgorithm.sense_loop eg sensed 0 None s0)
      as [rl s1] eqn:Hloop.
    destruct (sense_loop_appends _ _ _ _ Hd0 Hloop)
      as (recs & Hdata & Hle & _).
    exists recs. split.
    + destruct rl as [[c pl]|e]; exact Hdata.
    + lia.
  - apply select_frame in Hsel. destruct Hsel as (Hd0 & _).
    exists []. simpl. rewrite app_nil_r, Hd0. split; [exact Hd | lia].
Qed.

Lemma total_events_nonneg (d : list record) : (0 <= total_events d)%Z.
Proof.
  unfold total_events. induction d as [|r d IH]; simpl; [lia|].
  unfold events_of at 1. destruct (rec_points r); lia.
Qed.

(** The dataset is append-only: whatever their outcome, [add_data] leaves
    it as it was or with the record at its end, and a round leaves it with
    at most [topk] records added at its end. *)
Theorem dataset_is_append_only (s : policy) d :
  data s = Some d ->
  (forall r,
     data (snd (EpsilonGreedySense.add_data r s)) = Some d
     \/ data (snd (EpsilonGreedySense.add_data r s)) = Some (d ++ [r]))
  /\ (forall actions verbose index points,
        exists recs : list record,
          data (snd (EpsilonGreedySense.step actions verbose index points s))
          = Some (d ++ recs)
          /\ (Z.of_nat (length recs) <= Z.max 0 (topk s))%Z).
Proof.
  intros Hd. split.
  - intros r. rewrite add_data_run. simpl. rewrite Hd.
    destruct (fst (add_data_point r (estimator s))); simpl; auto.
  - intros actions verbose index points. now apply step_appends.
Qed.

(** The event count never goes down: after [add_data] or a round, returned
    or raised, [count_events] returns at least what it returned before. *)
Theorem count_events_never_decreases (s : policy) d :
  data s = Some d ->
  EpsilonGreedySense.count_events s = (Ok (total_events d), s)
  /\ (forall r, exists n,
        EpsilonGreedySense.count_events
          (snd (EpsilonGreedySense.add_data r s))
        = (Ok n, snd (EpsilonGreedySense.add_data r s))
        /\ (total_events d <= n)%Z)
  /\ (forall actions verbose index points, exists n,
        EpsilonGreedySense.count_events
          (snd (EpsilonGreedySense.step actions verbose index points s))
        = (Ok n, snd (EpsilonGreedySense.step actions verbose index points s))
        /\ (total_events d <= n)%Z).
Proof.
  intros Hd.
  assert (Hcount : forall (s1 : policy) d1, data s1 = Some d1 ->
            EpsilonGreedySense.count_events s1 = (Ok (total_events d1), s1)).
  { intros s1 d1 Hd1.
    unfold EpsilonGreedySense.count_events, SensingAlgorithm.count_events.
    run_method. rewrite Hd1, count_loop_total. reflexivity. }
  split; [now apply Hcount|]. split.
  - intros r.
    assert (Hcases :
      data (snd (EpsilonGreedySense.add_data r s)) = Some d
      \/ data (snd (EpsilonGreedySense.add_data r s)) = Some (d ++ [r])).
    { rewrite add_data_run. simpl. rewrite Hd.
      destruct (fst (add_data_point r (estimator s))); simpl; auto. }
    destruct Hcases as [Hsame | Hmore].
    + exists (total_events d). split; [now apply Hcount | lia].
    + exists (total_events (d ++ [r])). split; [now apply Hcount|].
      rewrite total_events_app.
      pose proof (total_events_nonneg [r]). lia.
  - intros actions verbose index points.
    destruct (step_appends actions verbose index points s Hd)
      as (recs & Hdata & _).
    exists (total_events (d ++ recs)). split; [now apply Hcount|].
    rewrite total_events_app.
    pose proof (total_events_nonneg recs). lia.
Qed.

(** Counting after a round: when a round reports a number of events, the
    total [count_events] returns afterwards is the total before the round
    plus that number. *)
Theorem count_events_grows_by_round_count (actions : list region)
    (verbose index : bool) (s : policy) d cost out regs idx s' :
  data s = Some d ->
  EpsilonGreedySense.step actions verbose index false s
    = (Ok (cost, out, regs, idx), s') ->
  exists n : Z,
    out = Count n
    /\ (0 <= n)%Z
    /\ EpsilonGreedySense.count_events s = (Ok (total_events d), s)
    /\ EpsilonGreedySense.count_events s' = (Ok (total_events d + n)%Z, s').
Proof.
  intros Hd. rewrite step_run.
  destruct (SensingAlgorithm.select eg actions verbose s)
    as [[[sensed idx0]|e] s0] eqn:Hsel; [|discriminate].
  destruct (SensingAlgorithm.sense_loop eg sensed 0 None s0)
    as [[[c pl]|e] s1] eqn:Hloop; [|discriminate].
  intros Hrun; inversion Hrun; subst; clear Hrun.
  apply select_frame in Hsel. destruct Hsel as (Hd0 & _).
  rewrite Hd in Hd0.
  destruct (sense_loop_completed _ _ _ _ Hd0 Hloop)
    as (recs & Hdata & _ & Hpl & _).
  rewrite merge_fold in Hpl.
  exists (total_events recs).
  split; [|split; [|split]].
  - subst pl. unfold SensingAlgorithm.summary. simpl.
    rewrite <- (merged_counts_events recs).
    destruct (merged (map rec_points recs)); reflexivity.
  - rewrite <- (merged_counts_events recs).
    destruct (merged (map rec_points recs)); lia.
  - unfold EpsilonGreedySense.count_events, SensingAlgorithm.count_events.
    run_method. rewrite Hd, count_loop_total. reflexivity.
  - unfold EpsilonGreedySense.count_events, SensingAlgorithm.count_events.
    run_method. rewrite Hdata, count_loop_total, total_events_app.
    reflexivity.
Qed.

(** Counting after an append: when [add_data] returns, the total grows by
    the number of points of the record (0 for a null or empty one). *)
Theorem count_events_after_add_data (r : record) (s : policy) d u s' :
  data s = Some d ->
  EpsilonGreedySense.add_data r s = (Ok u, s') ->
  EpsilonGreedySense.count_events s'
  = (Ok (total_events d + events_of r)%Z, s').
Proof.
  intros Hd. rewrite add_data_run. simpl. rewrite Hd.
  destruct (fst (add_data_point r (estimator s))); [|discriminate].
  intros Hrun; inversion Hrun; subst; clear Hrun.
  unfold EpsilonGreedySense.count_events, SensingAlgorithm.count_events.
  run_method. rewrite count_loop_total, total_events_app.
  unfold total_events at 2. simpl. f_equal. f_equal. lia.
Qed.

End Records.

(** ** The branches of the scoring and what the selection prefers *)

Section Greedy.
Context {region point E P G : Type}.
Context `{Process region point P} `{Estimator region point E}.
Context `{Region region} `{Generator G} `{FloatOps}.
Local Abbreviation policy := (policy region point E P G).
Local Abbreviation record := (record region point).
Local Abbreviation eg :=
  (EpsilonGreedySense.eg_methods : methods policy region point).

Lemma acquisition_explore_branch (actions : list region) (s : policy) :
  fst (uniform (gen s)) <= epsilon s (t s + 1)%Z ->
  EpsilonGreedySense.acquisition_function actions s =
    (Ok (Flat (fst (draws (length actions) (snd (uniform (gen s)))))),
     set_gen (snd (draws (length actions) (snd (uniform (gen s)))))
       (set_t (t s + 1) s)).
Proof.
  intros Hp.
  unfold EpsilonGreedySense.acquisition_function. run_method.
  destruct (uniform (gen s)) as [p g1] eqn:Hu. simpl in *.
  apply Qle_bool_iff in Hp. rewrite Hp. simpl.
  rewrite random_scores_draws. simpl. destruct s; reflexivity.
Qed.

Lemma acquisition_exploit_branch (actions : list region) (s : policy) :
  epsilon s (t s + 1)%Z < fst (uniform (gen s)) ->
  has_rate (estimator s) = true ->
  EpsilonGreedySense.acquisition_function actions s =
    (Ok (Flat (map (fun a => fdiv (mean_set (estimator s) a) (w s a))
                   actions)),
     set_gen (snd (uniform (gen s))) (set_t (t s + 1) s)).
Proof.
  intros Hp Hrate.
  unfold EpsilonGreedySense.acquisition_function. run_method.
  destruct (uniform (gen s)) as [p g1] eqn:Hu. simpl in *.
  destruct (Qle_bool p (epsilon s (t s + 1)%Z)) eqn:Hle.
  - apply Qle_bool_iff in Hle. exfalso. exact (Qlt_not_le _ _ Hp Hle).
  - simpl. rewrite Hrate. reflexivity.
Qed.

(** The two ways out of the branch test.  The schedule is read at the
    counter already advanced, [t + 1].  A uniform draw that does not
    exceed it gives one normal draw per candidate whether or not a rate
    is fitted; a draw that exceeds it, with a fitted rate, gives the means
    over the costs and consumes no normal draw. *)
Theorem acquisition_function_branches (actions : list region) (s : policy) :
  (fst (uniform (gen s)) <= epsilon s (t s + 1)%Z ->
   EpsilonGreedySense.acquisition_function actions s =
     (Ok (Flat (fst (draws (length actions) (snd (uniform (gen s)))))),
      set_gen (snd (draws (length actions) (snd (uniform (gen s)))))
        (set_t (t s + 1) s)))
  /\ (epsilon s (t s + 1)%Z < fst (uniform (gen s)) ->
      has_rate (estimator s) = true ->
      EpsilonGreedySense.acquisition_function actions s =
        (Ok (Flat (map (fun a => fdiv (mean_set (estimator s) a) (w s a))
                       actions)),
         set_gen (snd (uniform (gen s))) (set_t (t s + 1) s))).
Proof.
  split.
  - apply acquisition_explore_branch.
  - apply acquisition_exploit_branch.
Qed.

Lemma enumerate_nth (xs : list float) :
  forall (a j : nat) (x : float),
  nth_error xs j = Some x -> In (x, (a + j)%nat) (combine xs (seq a (length xs))).
Proof.
  induction xs as [|y xs IH]; intros a j x Hnth.
  - destruct j; discriminate.
  - destruct j as [|j]; simpl in *.
    + inversion Hnth; subst. left. now rewrite Nat.add_0_r.
    + right. replace (a + S j)%nat with (S a + j)%nat by lia.
      now apply IH.
Qed.

(** The positions a flat top-k keeps hold scores at least as large as the
    score of any position it leaves out. *)
Lemma topk_positions_dominate (xs : list float) (k : nat) (i : Z) (j : nat)
    (xi xj : float) :
  In i (row_indices (topk_row xs k)) ->
  nth_error xs (Z.to_nat i) = Some xi ->
  nth_error xs j = Some xj ->
  ~ In (Z.of_nat j) (row_indices (topk_row xs k)) ->
  xj <= xi.
Proof.
  intros Hi Hxi Hxj Hout.
  unfold row_indices in Hi. apply in_map_iff in Hi.
  destruct Hi as (e & <- & He).
  pose proof (topk_row_positional _ _ _ He) as [_ Hfst].
  rewrite Nat2Z.id in Hxi. rewrite Hfst in Hxi. inversion Hxi; subst xi.
  apply (topk_row_dominates xs k e (xj, j) He).
  - apply (enumerate_nth xs 0 j Hxj).
  - intros Hin. apply Hout. unfold row_indices.
    apply in_map_iff. exists (xj, j). split; [reflexivity | exact Hin].
Qed.

(** What a returning selection holds, in terms of the scores. *)
Lemma select_flat_result (actions : list region) (verbose : bool)
    (s : policy) u est' xs s1 sensed idx s0 :
  fit_gp (estimator s) = (Ok u, est') ->
  EpsilonGreedySense.acquisition_function actions (set_estimator est' s)
    = (Ok (Flat xs), s1) ->
  SensingAlgorithm.select eg actions verbose s = (Ok (sensed, idx), s0) ->
  idx = Vector (row_indices (topk_row xs (Z.to_nat (topk s))))
  /\ length xs = length actions
  /\ (0 <= topk s <= Z.of_nat (length xs))%Z
  /\ Forall2 (fun i a => nth_error actions (Z.to_nat i) = Some a)
             (row_indices (topk_row xs (Z.to_nat (topk s)))) sensed.
Proof.
  intros Hfit Hacq Hsel.
  destruct (select_after_fit actions verbose s Hfit)
    as (xs' & g' & Hacq' & Hlen & Hrun).
  rewrite Hacq in Hacq'. inversion Hacq'; subst xs'. clear Hacq'.
  rewrite Hrun in Hsel. unfold torch_topk in Hsel.
  destruct ((0 <=? topk s)%Z && (topk s <=? Z.of_nat (length xs))%Z)
    eqn:Hk; [|discriminate].
  apply andb_true_iff in Hk. destruct Hk as [Hk0 Hk1].
  apply Z.leb_le in Hk0. apply Z.leb_le in Hk1.
  destruct (pick_actions_flat actions xs Hlen (conj Hk0 Hk1))
    as (sensed' & Hpick & Hpos).
  simpl snd in Hsel. rewrite Hpick in Hsel.
  assert (Heq : sensed = sensed'
                /\ idx = Vector (row_indices
                                   (topk_row xs (Z.to_nat (topk s))))).
  { destruct verbose; [destruct (data s)|]; inversion Hsel; subst;
      split; reflexivity. }
  destruct Heq as [-> ->]. repeat split; auto.
Qed.

(** The selection is greedy on the scores: in a round that returns, the
    score at every chosen position is at least the score at every
    position left out. *)
Theorem step_chooses_best_scores (actions : list region)
    (verbose index points : bool) (s : policy) u est' xs s1
    cost out regs idx s' :
  fit_gp (estimator s) = (Ok u, est') ->
  EpsilonGreedySense.acquisition_function actions (set_estimator est' s)
    = (Ok (Flat xs), s1) ->
  EpsilonGreedySense.step actions verbose index points s
    = (Ok (cost, out, regs, idx), s') ->
  exists positions : list Z,
    idx = Vector positions
    /\ forall (i : Z) (j : nat) (xi xj : float),
         In i positions ->
         nth_error xs (Z.to_nat i) = Some xi ->
         nth_error xs j = Some xj ->
         ~ In (Z.of_nat j) positions ->
         xj <= xi.
Proof.
  intros Hfit Hacq. rewrite step_run.
  destruct (SensingAlgorithm.select eg actions verbose s)
    as [[[sensed idx0]|e] s0] eqn:Hsel; [|discriminate].
  destruct (SensingAlgorithm.sense_loop eg sensed 0 None s0)
    as [[[c pl]|e] s2]; [|discriminate].
  intros Hrun; inversion Hrun; subst; clear Hrun.
  destruct (select_flat_result _ _ _ Hfit Hacq Hsel) as (Hidx & _).
  exists (row_indices (topk_row xs (Z.to_nat (topk s)))).
  split; [exact Hidx|].
  intros i j xi xj. apply topk_positions_dominate.
Qed.

End Greedy.

(** ** What no method changes, and the edges of the query *)

Section Configuration.
Context {region point E P G : Type}.
Context `{Process region point P} `{Estimator region point E}.
Context `{Region region} `{Generator G} `{FloatOps}.
Local Abbreviation policy := (policy region point E P G).
Local Abbreviation record := (record region point).
Local Abbreviation eg :=
  (EpsilonGreedySense.eg_methods : methods policy region point).

Lemma same_config_refl (s : policy) : same_config s s.
Proof. repeat split. Qed.

Lemma same_config_trans (s1 s2 s3 : policy) :
  same_config s1 s2 -> same_config s2 s3 -> same_config s1 s3.
Proof.
  intros (Hw & Hdt & Hk & He) (Hw' & Hdt' & Hk' & He').
  repeat split; congruence.
Qed.

Lemma add_data_config (r : record) (s : policy) :
  same_config s (snd (EpsilonGreedySense.add_data r s)).
Proof.
  rewrite add_data_run. simpl.
  destruct (fst (add_data_point r (estimator s))); [|repeat split].
  destruct (data s); repeat split.
Qed.

Lemma sense_config (a : region) (s : policy) :
  same_config s (snd (SensingAlgorithm.sense a s)).
Proof. rewrite sense_run. repeat split. Qed.

Lemma sense_loop_config (sensed : list region) :
  forall (c : float) (pl : option (list point)) (s : policy),
  same_config s (snd (SensingAlgorithm.sense_loop eg sensed c pl s)).
Proof.
  induction sensed as [|a sensed IH]; intros c pl s.
  - apply same_config_refl.
  - rewrite sense_loop_cons.
    pose proof (sense_config a s) as Hs.
    destruct (SensingAlgorithm.sense a s) as [[dp|e] s1]; [|exact Hs].
    pose proof (add_data_config dp s1) as Ha.
    destruct (EpsilonGreedySense.add_data dp s1) as [[u|e] s2];
      simpl in *.
    + eapply same_config_trans; [exact Hs|].
      eapply same_config_trans; [exact Ha | apply IH].
    + eapply same_config_trans; eauto.
Qed.

Lemma acquisition_config (actions : list region) (s : policy) :
  same_config s (snd (EpsilonGreedySense.acquisition_function actions s)).
Proof.
  destruct (acquisition_function_flat actions s) as (xs & g' & Hacq & _).
  rewrite Hacq. repeat split.
Qed.

Lemma select_config (actions : list region) (verbose : bool) (s : policy) :
  same_config s (snd (SensingAlgorithm.select eg actions verbose s)).
Proof.
  destruct (fit_gp (estimator s)) as [[u|e] est'] eqn:Hf.
  - destruct (select_after_fit actions verbose s Hf)
      as (xs & g' & _ & _ & Hrun).
    rewrite Hrun. repeat split.
  - rewrite select_run, Hf. repeat split.
Qed.

(** The configuration of a policy is fixed at construction: whatever they
    return or raise, [step], [add_data], [acquisition_function],
    [fit_estimator] and [sense] leave the cost function, the duration,
    [topk] and the schedule as they were. *)
Theorem methods_keep_the_configuration (s : policy) :
  (forall actions verbose index points,
     same_config s
       (snd (EpsilonGreedySense.step actions verbose index points s)))
  /\ (forall r, same_config s (snd (EpsilonGreedySense.add_data r s)))
  /\ (forall actions,
        same_config s
          (snd (EpsilonGreedySense.acquisition_function actions s)))
  /\ same_config s (snd (EpsilonGreedySense.fit_estimator s))
  /\ (forall a, same_config s (snd (EpsilonGreedySense.sense a s))).
Proof.
  split; [|split; [|split; [|split]]].
  - intros actions verbose index points. rewrite step_run.
    pose proof (select_config actions verbose s) as Hsel.
    destruct (SensingAlgorithm.select eg actions verbose s)
      as [[[sensed idx]|e] s0]; [|exact Hsel].
    pose proof (sense_loop_config sensed 0 None s0) as Hloop.
    simpl in Hsel.
    destruct (SensingAlgorithm.sense_loop eg sensed 0 None s0)
      as [[[c pl]|e] s1]; simpl in *;
      eapply same_config_trans; eauto.
  - intros r. apply add_data_config.
  - intros actions. apply acquisition_config.
  - unfold EpsilonGreedySense.fit_estimator, call_estimator.
    destruct (fit_gp (estimator s)) as [r est']. repeat split.
  - intros a. apply sense_config.
Qed.

(** [best_point_so_far] is a query: it never changes the state.  It raises
    when the estimator answers with an empty vector, and whenever the
    discretization of the region is empty. *)
Theorem best_point_so_far_edges (D : region) (n : Z) (s : policy) :
  snd (SensingAlgorithm.best_point_so_far D n s) = s
  /\ (mean_rate (estimator s) D n = Ok [] ->
      is_ok (fst (SensingAlgorithm.best_point_so_far D n s)) = false)
  /\ (return_discretization D n = [] ->
      is_ok (fst (SensingAlgorithm.best_point_so_far D n s)) = false).
Proof.
  unfold SensingAlgorithm.best_point_so_far. run_method.
  split; [|split].
  - destruct (mean_rate (estimator s) D n) as [v|e]; [|reflexivity].
    destruct (torch_argmax v) as [i|e]; [|reflexivity].
    destruct (nth_error (return_discretization D n) i); reflexivity.
  - intros Hv. rewrite Hv. reflexivity.
  - intros Hxx. rewrite Hxx.
    destruct (mean_rate (estimator s) D n) as [v|e]; [|reflexivity].
    destruct (torch_argmax v) as [i|e]; [|reflexivity].
    destruct i; reflexivity.
Qed.

(** The base class on its own cannot complete a round that has to sense:
    with [topk >= 1], [step] on the methods of [SensingAlgorithm] always
    raises, at the top-k, at the indexing of the candidates, in the
    process, or at [add_data], which the class does not define. *)
Theorem base_class_cannot_sense (actions : list region)
    (verbose index points : bool) (s : policy) :
  (1 <= topk s)%Z ->
  is_ok (fst (SensingAlgorithm.step SensingAlgorithm.base_methods actions
                verbose index points s)) = false.
Proof.
  intros Hk.
  pose proof (draws_length (length actions) (gen s)) as Hlen.
  unfold SensingAlgorithm.step, SensingAlgorithm.select,
    SensingAlgorithm.base_methods, SensingAlgorithm.fit_estimator,
    SensingAlgorithm.acquisition_function.
  unfold bind; simpl; rewrite random_scores_draws.
  destruct (draws (length actions) (gen s)) as [xs g2]; simpl in *.
  unfold ret, gets, lift; simpl; unfold torch_topk.
  destruct (topk s =? 1)%Z eqn:Hk1.
  - apply Z.eqb_eq in Hk1. rewrite Hk1. simpl.
    unfold SensingAlgorithm.pick_actions, list_getitem_tensor, tensor_index.
    simpl.
    destruct xs as [|x [|y xs]]; simpl in Hlen; simpl; try reflexivity.
    destruct actions as [|a [|b actions]]; simpl in Hlen; try discriminate.
    simpl.
    destruct verbose; simpl.
    + unfold SensingAlgorithm.count_events, bind, gets, ret, raise. simpl.
      destruct (data s); simpl; [|reflexivity].
      unfold SensingAlgorithm.sense, bind, gets, call_process, raise, ret.
      simpl.
      destruct (sample a (dt s) (process s)) as [[obs|e] p']; reflexivity.
    + unfold SensingAlgorithm.sense, bind, gets, call_process, raise, ret.
      simpl.
      destruct (sample a (dt s) (process s)) as [[obs|e] p']; reflexivity.
  - replace ((0 <=? topk s)%Z && (topk s <=? 1)%Z) with false.
    + reflexivity.
    + symmetry. apply andb_false_iff. right. apply Z.leb_gt.
      apply Z.eqb_neq in Hk1. lia.
Qed.

End Configuration.

(** ** The further properties on the concrete world *)

Section FurtherExamples.
Local Open Scope Z_scope.

Lemma step_topk_out_of_range_raises_witness :
  let s := Toy.make Toy.loaded [] (Some [Toy.rec0]) 5 [0%Q; 1%Q; 2%Q] in
  is_ok (fst (fit_gp (estimator s))) = true
  /\ Z.of_nat (length [10%nat; 11%nat]) < topk s
  /\ fst (EpsilonGreedySense.step [10%nat; 11%nat] false false false s)
     = Raise RuntimeError
  /\ data (snd (EpsilonGreedySense.step [10%nat; 11%nat] false false false s))
     = data s.
Proof.
  intros s.
  assert (Hfit : is_ok (fst (fit_gp (estimator s))) = true) by reflexivity.
  assert (Hk : topk s < 0 \/ Z.of_nat (length [10%nat; 11%nat]) < topk s)
    by (right; simpl; lia).
  pose proof (step_topk_out_of_range_raises [10%nat; 11%nat]
                false false false s Hfit Hk) as (Hr & Hd & _).
  split; [exact Hfit|]. split; [simpl; lia|]. split; assumption.
Defined.

Lemma step_with_zero_topk_senses_nothing_witness :
  let s := Toy.make Toy.loaded [] (Some [Toy.rec0]) 0 [0%Q] in
  is_ok (fst (fit_gp (estimator s))) = true
  /\ topk s = 0
  /\ data s <> None
  /\ fst (EpsilonGreedySense.step [10%nat; 11%nat] true false false s)
     = Ok (0%Q, Count 0, [], Vector []).
Proof.
  intros s.
  assert (Hfit : is_ok (fst (fit_gp (estimator s))) = true) by reflexivity.
  assert (Hk : topk s = 0) by reflexivity.
  assert (Hd : data s <> None) by discriminate.
  pose proof (step_with_zero_topk_senses_nothing [10%nat; 11%nat]
                (verbose := true) false false s Hfit Hk (or_intror Hd))
    as (Hr & _).
  split; [exact Hfit|]. split; [exact Hk|]. split; assumption.
Defined.

Lemma step_aborted_by_fit_witness :
  let s := Toy.make Toy.ill [] (Some [Toy.rec0]) 1 [] in
  fit_gp (estimator s) = (Raise (External "EstimationError"), Toy.ill)
  /\ EpsilonGreedySense.step [10%nat; 11%nat] false false false s
     = (Raise (External "EstimationError"), set_estimator Toy.ill s).
Proof.
  intros s.
  assert (Hfit : fit_gp (estimator s)
                 = (Raise (External "EstimationError"), Toy.ill))
    by reflexivity.
  split; [exact Hfit|].
  exact (step_aborted_by_fit [10%nat; 11%nat] false false false s Hfit).
Defined.

Lemma step_flags_only_report_witness :
  data Toy.quiet <> None
  /\ EpsilonGreedySense.step [10%nat; 11%nat; 12%nat] true true true
       Toy.quiet
     = EpsilonGreedySense.step [10%nat; 11%nat; 12%nat] false false true
         Toy.quiet.
Proof.
  assert (Hd : data Toy.quiet <> None) by discriminate.
  split; [exact Hd|].
  exact (step_flags_only_report [10%nat; 11%nat; 12%nat] true true true
           Toy.quiet Hd).
Defined.

Lemma step_cost_accumulates_witness :
  EpsilonGreedySense.step [10%nat; 11%nat; 12%nat] false false true Toy.quiet
  = (Ok (69%Q, Points (Some [4; 5]), [12%nat; 11%nat; 10%nat],
         Vector [2; 1; 0]), Toy.quiet_after)
  /\ 69%Q = fold_left (fun acc a => fadd acc (w Toy.quiet a))
                      [12%nat; 11%nat; 10%nat] 0%Q.
Proof.
  assert (Hrun :
    EpsilonGreedySense.step [10%nat; 11%nat; 12%nat] false false true
      Toy.quiet
    = (Ok (69%Q, Points (Some [4; 5]), [12%nat; 11%nat; 10%nat],
           Vector [2; 1; 0]), Toy.quiet_after))
    by (vm_compute; reflexivity).
  split; [exact Hrun|].
  exact (step_cost_accumulates [10%nat; 11%nat; 12%nat] false false true
           Toy.quiet Hrun).
Defined.

Lemma step_records_the_round_witness :
  data Toy.quiet = Some [Toy.rec0]
  /\ exists recs : list (record Toy.region Toy.point),
       data Toy.quiet_after = Some ([Toy.rec0] ++ recs)
       /\ map rec_region recs = [12%nat; 11%nat; 10%nat]
       /\ Forall (fun r => rec_dt r = dt Toy.quiet) recs
       /\ length recs = Z.to_nat (topk Toy.quiet)
       /\ estimator Toy.quiet_after
          = ingest recs (snd (fit_gp (estimator Toy.quiet))).
Proof.
  assert (Hrun :
    EpsilonGreedySense.step [10%nat; 11%nat; 12%nat] false false true
      Toy.quiet
    = (Ok (69%Q, Points (Some [4; 5]), [12%nat; 11%nat; 10%nat],
           Vector [2; 1; 0]), Toy.quiet_after))
    by (vm_compute; reflexivity).
  split; [reflexivity|].
  exact (step_records_the_round [10%nat; 11%nat; 12%nat] false false true
           Toy.quiet (d := [Toy.rec0]) eq_refl Hrun).
Defined.

Lemma step_records_the_samples_witness :
  data Toy.quiet = Some [Toy.rec0]
  /\ exists recs : list (record Toy.region Toy.point),
       data Toy.quiet_after = Some ([Toy.rec0] ++ recs)
       /\ sample_run [12%nat; 11%nat; 10%nat] (dt Toy.quiet)
            (process Toy.quiet)
          = (Ok (map rec_points recs), process Toy.quiet_after).
Proof.
  assert (Hrun :
    EpsilonGreedySense.step [10%nat; 11%nat; 12%nat] false false true
      Toy.quiet
    = (Ok (69%Q, Points (Some [4; 5]), [12%nat; 11%nat; 10%nat],
           Vector [2; 1; 0]), Toy.quiet_after))
    by (vm_compute; reflexivity).
  split; [reflexivity|].
  exact (step_records_the_samples [10%nat; 11%nat; 12%nat] false false true
           Toy.quiet (d := [Toy.rec0]) eq_refl Hrun).
Defined.

Lemma dataset_is_append_only_witness :
  data Toy.refused = Some [Toy.rec0]
  /\ exists recs : list (record Toy.region Toy.point),
       data (snd (EpsilonGreedySense.step [10%nat; 11%nat] false false false
                    Toy.refused))
       = Some ([Toy.rec0] ++ recs)
       /\ Z.of_nat (length recs) <= Z.max 0 (topk Toy.refused).
Proof.
  split; [reflexivity|].
  exact (proj2 (dataset_is_append_only Toy.refused (d := [Toy.rec0]) eq_refl)
           [10%nat; 11%nat] false false false).
Defined.

Lemma count_events_never_decreases_witness :
  data Toy.refused = Some [Toy.rec0]
  /\ exists n,
       EpsilonGreedySense.count_events
         (snd (EpsilonGreedySense.step [10%nat; 11%nat] false false false
                 Toy.refused))
       = (Ok n, snd (EpsilonGreedySense.step [10%nat; 11%nat]
                       false false false Toy.refused))
       /\ total_events [Toy.rec0] <= n.
Proof.
  split; [reflexivity|].
  exact (proj2 (proj2 (count_events_never_decreases Toy.refused
                         (d := [Toy.rec0]) eq_refl))
           [10%nat; 11%nat] false false false).
Defined.

Lemma count_events_grows_by_round_count_witness :
  data Toy.quiet = Some [Toy.rec0]
  /\ exists n : Z,
       Count 2 = @Count Toy.point n
       /\ 0 <= n
       /\ EpsilonGreedySense.count_events Toy.quiet
          = (Ok (total_events [Toy.rec0]), Toy.quiet)
       /\ EpsilonGreedySense.count_events Toy.quiet_after
          = (Ok (total_events [Toy.rec0] + n), Toy.quiet_after).
Proof.
  assert (Hrun :
    EpsilonGreedySense.step [10%nat; 11%nat; 12%nat] false false false
      Toy.quiet
    = (Ok (69%Q, Count 2, [12%nat; 11%nat; 10%nat], Vector [2; 1; 0]),
       Toy.quiet_after))
    by (vm_compute; reflexivity).
  split; [reflexivity|].
  exact (count_events_grows_by_round_count [10%nat; 11%nat; 12%nat]
           false false Toy.quiet (d := [Toy.rec0]) eq_refl Hrun).
Defined.

Lemma count_events_after_add_data_witness :
  let s := Toy.make Toy.loaded [] (Some [Toy.rec0]) 1 [] in
  let r : record Toy.region Toy.point := (1%nat, Some [3; 4; 5], 1%Q) in
  data s = Some [Toy.rec0]
  /\ EpsilonGreedySense.count_events (snd (EpsilonGreedySense.add_data r s))
     = (Ok (total_events [Toy.rec0] + events_of r),
        snd (EpsilonGreedySense.add_data r s)).
Proof.
  intros s r.
  assert (Hadd : EpsilonGreedySense.add_data r s
                 = (Ok tt, snd (EpsilonGreedySense.add_data r s)))
    by (vm_compute; reflexivity).
  split; [reflexivity|].
  exact (count_events_after_add_data r s (d := [Toy.rec0]) eq_refl Hadd).
Defined.

Lemma acquisition_function_branches_witness :
  let explore := Toy.make Toy.trained [] (Some [Toy.rec0]) 1
                   [0%Q; 5%Q; 7%Q] in
  let exploit := Toy.make Toy.trained [] (Some [Toy.rec0]) 1 [(1 # 2)%Q] in
  fst (EpsilonGreedySense.acquisition_function [1%nat; 2%nat] explore)
    = Ok (Flat [5%Q; 7%Q])
  /\ fst (EpsilonGreedySense.acquisition_function [1%nat; 2%nat] exploit)
     = Ok (Flat [(2 # 3)%Q; (3 # 5)%Q]).
Proof.
  intros explore exploit. split.
  - assert (Hp : (fst (uniform (gen explore))
                  <= epsilon explore (t explore + 1))%Q)
      by (vm_compute; discriminate).
    rewrite (proj1 (acquisition_function_branches [1%nat; 2%nat] explore)
               Hp).
    reflexivity.
  - assert (Hp : (epsilon exploit (t exploit + 1)
                  < fst (uniform (gen exploit)))%Q) by reflexivity.
    assert (Hrate : has_rate (estimator exploit) = true) by reflexivity.
    rewrite (proj2 (acquisition_function_branches [1%nat; 2%nat] exploit)
               Hp Hrate).
    reflexivity.
Defined.

Lemma step_chooses_best_scores_witness :
  fit_gp (estimator Toy.greedy) = (Ok tt, Toy.trained)
  /\ EpsilonGreedySense.acquisition_function [1%nat; 2%nat; 3%nat]
       (set_estimator Toy.trained Toy.greedy)
     = (Ok (Flat [(2 # 3)%Q; (3 # 5)%Q; (4 # 7)%Q]), Toy.greedy_scored)
  /\ EpsilonGreedySense.step [1%nat; 2%nat; 3%nat] false false false
       Toy.greedy
     = (Ok (3%Q, Count 0, [1%nat], Vector [0]), Toy.greedy_after)
  /\ (exists positions : list Z,
        Vector [0] = Vector positions
        /\ forall (i : Z) (j : nat) (xi xj : float),
             In i positions ->
             nth_error [(2 # 3)%Q; (3 # 5)%Q; (4 # 7)%Q] (Z.to_nat i)
               = Some xi ->
             nth_error [(2 # 3)%Q; (3 # 5)%Q; (4 # 7)%Q] j = Some xj ->
             ~ In (Z.of_nat j) positions ->
             (xj <= xi)%Q)
  /\ ((3 # 5) <= (2 # 3))%Q /\ ((4 # 7) <= (2 # 3))%Q.
Proof.
  assert (Hfit : fit_gp (estimator Toy.greedy) = (Ok tt, Toy.trained))
    by reflexivity.
  assert (Hacq :
    EpsilonGreedySense.acquisition_function [1%nat; 2%nat; 3%nat]
      (set_estimator Toy.trained Toy.greedy)
    = (Ok (Flat [(2 # 3)%Q; (3 # 5)%Q; (4 # 7)%Q]), Toy.greedy_scored))
    by (vm_compute; reflexivity).
  assert (Hrun :
    EpsilonGreedySense.step [1%nat; 2%nat; 3%nat] false false false
      Toy.greedy
    = (Ok (3%Q, Count 0, [1%nat], Vector [0]), Toy.greedy_after))
    by (vm_compute; reflexivity).
  pose proof (step_chooses_best_scores [1%nat; 2%nat; 3%nat]
                false false false Toy.greedy Hfit Hacq Hrun) as Hbest.
  split; [exact Hfit|]. split; [exact Hacq|]. split; [exact Hrun|].
  split; [exact Hbest|].
  destruct Hbest as (positions & Hpos & Hdom).
  inversion Hpos; subst positions.
  split.
  - apply (Hdom 0 1%nat); [now left | reflexivity | reflexivity |].
    intros [Hc | []]. discriminate.
  - apply (Hdom 0 2%nat); [now left | reflexivity | reflexivity |].
    intros [Hc | []]. discriminate.
Defined.

Lemma best_point_so_far_edges_witness :
  let s := Toy.make Toy.trained [] (Some [Toy.rec0]) 1 [] in
  mean_rate (estimator s) 5%nat 0 = Ok []
  /\ is_ok (fst (SensingAlgorithm.best_point_so_far 5%nat 0 s)) = false.
Proof.
  intros s.
  assert (Hv : mean_rate (estimator s) 5%nat 0 = Ok []) by reflexivity.
  split; [exact Hv|].
  exact (proj1 (proj2 (best_point_so_far_edges 5%nat 0 s)) Hv).
Defined.

Lemma base_class_cannot_sense_witness :
  let s := Toy.make Toy.loaded [] (Some [Toy.rec0]) 1 [5%Q] in
  1 <= topk s
  /\ is_ok (fst (SensingAlgorithm.step SensingAlgorithm.base_methods
                   [10%nat] false false false s)) = false.
Proof.
  intros s.
  assert (Hk : 1 <= topk s) by (simpl; lia).
  split; [exact Hk|].
  exact (base_class_cannot_sense [10%nat] false false false s Hk).
Defined.

Lemma base_scoring_defeats_selection_witness :
  let s := Toy.make Toy.loaded [] (Some [Toy.rec0]) 1 [5%Q; 7%Q] in
  (2 <= length [10%nat; 11%nat])%nat
  /\ topk s = 1
  /\ fst (SensingAlgorithm.step Toy.base_scoring [10%nat; 11%nat]
            false false false s) = Raise TypeError.
Proof.
  intros s.
  assert (Hm : (2 <= length [10%nat; 11%nat])%nat) by (simpl; lia).
  split; [exact Hm|]. split; [reflexivity|].
  exact (proj1 (base_scoring_defeats_selection EpsilonGreedySense.add_data
                  [10%nat; 11%nat] false false false s Hm) eq_refl).
Defined.

End FurtherExamples.
